(** * awscli: the comma splitter of [awscli/utils.py] and the [export]
      subcommand of [awscli/customizations/configure/export.py]

    Python strings are modelled as [string], a character being one [ascii]
    (every character the splitter tests for is ASCII); Python integers (the
    results of [str.find] and [str.count], slice bounds) as [Z]; a raised
    exception as the [Raise] outcome of a computation; the iterator that
    [_split_with_quotes] and [_eat_items] share as the list of the parts
    not yet drawn, passed in and handed back. *)

From Stdlib Require Import String Ascii List ZArith Lia Bool.
Import ListNotations.
Local Open Scope string_scope.
Local Open Scope Z_scope.

(** ** Characters the splitter looks at *)

Definition dquote_c : ascii := "034"%char.
Definition squote_c : ascii := "039"%char.
Definition bslash_c : ascii := "092"%char.
Definition comma_c : ascii := ","%char.
Definition lbrack_c : ascii := "["%char.
Definition rbrack_c : ascii := "]"%char.
Definition nl_c : ascii := "010"%char.
Definition cr_c : ascii := "013"%char.

Definition chr (c : ascii) : string := String c EmptyString.

Definition dquote : string := chr dquote_c.
Definition squote : string := chr squote_c.
Definition bslash : string := chr bslash_c.
Definition comma : string := chr comma_c.
Definition lbrack : string := chr lbrack_c.
Definition rbrack : string := chr rbrack_c.

(** ** The Python string operations the source uses *)

Module Py.

(** [len(s)] *)
Definition len (s : string) : Z := Z.of_nat (String.length s).

(** [s.find(sub)]: the lowest index at which [sub] occurs, or [-1]. *)
Fixpoint find_from (sub s : string) (i : Z) : Z :=
  if prefix sub s then i
  else match s with
       | EmptyString => -1
       | String _ s' => find_from sub s' (i + 1)
       end.

Definition find (sub s : string) : Z := find_from sub s 0.

(** [sub in s] *)
Definition contains (sub s : string) : bool := negb (find sub s =? -1).

(** [s.split(sep)] for a one-character separator. *)
Fixpoint split (sep : ascii) (s : string) : list string :=
  match s with
  | EmptyString => [EmptyString]
  | String c s' =>
      if Ascii.eqb c sep then EmptyString :: split sep s'
      else match split sep s' with
           | [] => [chr c]
           | hd :: tl => String c hd :: tl
           end
  end.

(** [sep.join(items)] *)
Fixpoint join (sep : string) (items : list string) : string :=
  match items with
  | [] => EmptyString
  | [x] => x
  | x :: rest => x ++ sep ++ join sep rest
  end.

(** [s.count(sub)]: the number of non-overlapping occurrences of a
    non-empty [sub]; [skip] is the number of characters still covered by the
    occurrence found last. *)
Fixpoint count_from (sub s : string) (skip : nat) : Z :=
  match s with
  | EmptyString => 0
  | String _ s' =>
      match skip with
      | S k => count_from sub s' k
      | O => if prefix sub s
             then 1 + count_from sub s' (String.length sub - 1)
             else count_from sub s' 0
      end
  end.

Definition count (sub s : string) : Z :=
  match sub with
  | EmptyString => len s + 1
  | _ => count_from sub s 0
  end.

(** [s.replace(old, '')]: every non-overlapping occurrence of [old] is
    dropped, scanning from the left; with [old] empty the string is returned
    as it is. *)
Fixpoint remove_from (old s : string) (skip : nat) : string :=
  match s with
  | EmptyString => EmptyString
  | String c s' =>
      match skip with
      | S k => remove_from old s' k
      | O => if prefix old s
             then remove_from old s' (String.length old - 1)
             else String c (remove_from old s' 0)
      end
  end.

Definition replace_with_empty (old s : string) : string :=
  match old with
  | EmptyString => s
  | _ => remove_from old s 0
  end.

(** [s.endswith(suffix)] *)
Definition endswith (s suffix : string) : bool :=
  let n := String.length s in
  let m := String.length suffix in
  (m <=? n)%nat && String.eqb (substring (n - m) m s) suffix.

(** A slice bound as Python normalises it: a negative bound counts from the
    end, and the bound is clamped to [0, len]. *)
Definition slice_bound (n i : Z) : Z :=
  let j := if i <? 0 then i + n else i in
  Z.max 0 (Z.min n j).

(** [s[lo:hi]] *)
Definition slice (s : string) (lo hi : Z) : string :=
  let n := len s in
  let a := slice_bound n lo in
  let b := slice_bound n hi in
  substring (Z.to_nat a) (Z.to_nat (b - a)) s.

(** [s[lo:]] and [s[:hi]] *)
Definition slice_from (s : string) (lo : Z) : string := slice s lo (len s).
Definition slice_to (s : string) (hi : Z) : string := slice s 0 hi.

End Py.

(** ** Exceptions and outcomes *)

(** The exceptions that leave the splitter: [ValueError] with its argument,
    [csv.Error], and the [IndexError] of indexing an empty list of rows. *)
Inductive exn : Type :=
| ValueError (payload : string)
| csv_Error
| IndexError.

(** The outcome of a call: a value, a raised exception, or [OutOfFuel] when
    the bound given to the model's recursion ran out (shown below never to
    happen for the bounds [split_on_commas] uses). *)
Inductive outcome (A : Type) : Type :=
| Ok (a : A)
| Raise (e : exn)
| OutOfFuel.
Arguments Ok {A} a.
Arguments Raise {A} e.
Arguments OutOfFuel {A}.

Definition bind {A B : Type} (m : outcome A) (k : A -> outcome B) : outcome B :=
  match m with
  | Ok a => k a
  | Raise e => Raise e
  | OutOfFuel => OutOfFuel
  end.

Notation "x <- m ;; k" := (bind m (fun x => k))
  (at level 61, m at next level, right associativity).

(** ** The [csv] reader the splitter delegates to

    [csv.reader(six.StringIO(value), escapechar='\\')] is the reader of the
    Python standard library ([Modules/_csv.c]) with the default [excel]
    dialect and the escape character set: delimiter [,], quote character
    the double quote, [doublequote] on, [skipinitialspace] off, [strict]
    off, quoting [QUOTE_MINIMAL].  It is modelled as the state machine of
    that library (as of CPython 3.11, where a NUL character is an ordinary
    one), with these settings substituted. *)

Module Csv.

Inductive ParserState : Type :=
| START_RECORD | START_FIELD | ESCAPED_CHAR | IN_FIELD
| IN_QUOTED_FIELD | ESCAPE_IN_QUOTED_FIELD | QUOTE_IN_QUOTED_FIELD
| EAT_CRNL | AFTER_ESCAPED_CRNL.

(** What the reader is fed: a character of the current line, or the
    end-of-line mark that follows the last character of every line. *)
Inductive input : Type :=
| Chr (c : ascii)
| EOL.

Record Reader : Type := mkReader {
  state : ParserState;
  fields : list string;     (* the fields of the record read so far *)
  field : string            (* the field being read *)
}.

(** [csv.field_size_limit()] *)
Definition field_limit : Z := 131072.

Definition parse_reset : Reader := mkReader START_RECORD [] EmptyString.

Definition set_state (st : ParserState) (r : Reader) : Reader :=
  mkReader st (fields r) (field r).

Definition parse_save_field (r : Reader) : Reader :=
  mkReader (state r) (fields r ++ [field r])%list EmptyString.

Definition parse_add_char (r : Reader) (c : ascii) : outcome Reader :=
  if field_limit <=? Py.len (field r) then Raise csv_Error
  else Ok (mkReader (state r) (fields r) (field r ++ chr c)).

Definition is_newline (c : ascii) : bool :=
  Ascii.eqb c nl_c || Ascii.eqb c cr_c.

(** The end of a field at a line break or at the end of the line. *)
Definition end_of_line (r : Reader) (c : input) : Reader :=
  set_state (match c with EOL => START_RECORD | Chr _ => EAT_CRNL end)
            (parse_save_field r).

Definition start_field (r : Reader) (c : input) : outcome Reader :=
  match c with
  | EOL => Ok (end_of_line r c)
  | Chr ch =>
      if is_newline ch then Ok (end_of_line r c)
      else if Ascii.eqb ch dquote_c then Ok (set_state IN_QUOTED_FIELD r)
      else if Ascii.eqb ch bslash_c then Ok (set_state ESCAPED_CHAR r)
      else if Ascii.eqb ch comma_c then Ok (parse_save_field r)
      else r' <- parse_add_char r ch ;; Ok (set_state IN_FIELD r')
  end.

Definition in_field (r : Reader) (c : input) : outcome Reader :=
  match c with
  | EOL => Ok (end_of_line r c)
  | Chr ch =>
      if is_newline ch then Ok (end_of_line r c)
      else if Ascii.eqb ch bslash_c then Ok (set_state ESCAPED_CHAR r)
      else if Ascii.eqb ch comma_c
      then Ok (set_state START_FIELD (parse_save_field r))
      else parse_add_char r ch
  end.

Definition parse_process_char (r : Reader) (c : input) : outcome Reader :=
  match state r with
  | START_RECORD =>
      match c with
      | EOL => Ok r
      | Chr ch =>
          if is_newline ch then Ok (set_state EAT_CRNL r)
          else start_field (set_state START_FIELD r) c
      end
  | START_FIELD => start_field r c
  | ESCAPED_CHAR =>
      match c with
      | EOL => r' <- parse_add_char r nl_c ;; Ok (set_state IN_FIELD r')
      | Chr ch =>
          r' <- parse_add_char r ch ;;
          Ok (set_state (if is_newline ch then AFTER_ESCAPED_CRNL
                         else IN_FIELD) r')
      end
  | AFTER_ESCAPED_CRNL =>
      match c with
      | EOL => Ok r
      | Chr _ => in_field r c
      end
  | IN_FIELD => in_field r c
  | IN_QUOTED_FIELD =>
      match c with
      | EOL => Ok r
      | Chr ch =>
          if Ascii.eqb ch bslash_c then Ok (set_state ESCAPE_IN_QUOTED_FIELD r)
          else if Ascii.eqb ch dquote_c
          then Ok (set_state QUOTE_IN_QUOTED_FIELD r)
          else parse_add_char r ch
      end
  | ESCAPE_IN_QUOTED_FIELD =>
      r' <- parse_add_char r (match c with EOL => nl_c | Chr ch => ch end) ;;
      Ok (set_state IN_QUOTED_FIELD r')
  | QUOTE_IN_QUOTED_FIELD =>
      match c with
      | EOL => Ok (end_of_line r c)
      | Chr ch =>
          if Ascii.eqb ch dquote_c
          then r' <- parse_add_char r ch ;; Ok (set_state IN_QUOTED_FIELD r')
          else if Ascii.eqb ch comma_c
          then Ok (set_state START_FIELD (parse_save_field r))
          else if is_newline ch then Ok (end_of_line r c)
          else r' <- parse_add_char r ch ;; Ok (set_state IN_FIELD r')
      end
  | EAT_CRNL =>
      match c with
      | EOL => Ok (set_state START_RECORD r)
      | Chr ch => if is_newline ch then Ok r else Raise csv_Error
      end
  end.

(** One line of the input: its characters, then the end-of-line mark. *)
Fixpoint process_line (r : Reader) (line : string) : outcome Reader :=
  match line with
  | EmptyString => parse_process_char r EOL
  | String c rest => r' <- parse_process_char r (Chr c) ;; process_line r' rest
  end.

(** Iterating over a [StringIO]: the lines of the text, each with the line
    feed that ends it. *)
Fixpoint readlines (s : string) : list string :=
  match s with
  | EmptyString => []
  | String c s' =>
      if Ascii.eqb c nl_c then chr c :: readlines s'
      else match readlines s' with
           | [] => [chr c]
           | l :: ls => String c l :: ls
           end
  end.

Definition is_IN_QUOTED_FIELD (st : ParserState) : bool :=
  match st with IN_QUOTED_FIELD => true | _ => false end.

(** [list(reader)]: lines are fed until the parser is back at the start of
    a record, which yields the record's fields and resets the parser.  When
    the lines run out inside a record, the record is yielded if a field is
    under way or a quoted field is open, and the iteration stops. *)
Fixpoint rows (r : Reader) (lines : list string) : outcome (list (list string)) :=
  match lines with
  | [] =>
      if negb (String.eqb (field r) EmptyString) || is_IN_QUOTED_FIELD (state r)
      then Ok [fields (parse_save_field r)]
      else Ok []
  | line :: rest =>
      r' <- process_line r line ;;
      match state r' with
      | START_RECORD =>
          more <- rows parse_reset rest ;; Ok (fields r' :: more)
      | _ => rows r' rest
      end
  end.

(** [list(csv.reader(six.StringIO(value), escapechar='\\'))] *)
Definition reader (value : string) : outcome (list (list string)) :=
  rows parse_reset (readlines value).

End Csv.

(** [rows[0]] *)
Definition first_row (rs : list (list string)) : outcome (list string) :=
  match rs with
  | [] => Raise IndexError
  | r :: _ => Ok r
  end.

(** ** [awscli/utils.py]: the splitter *)

(** [any(char in value for char in chars)] *)
Definition any_in (chars : list string) (value : string) : bool :=
  existsb (fun char => Py.contains char value) chars.

Definition list_marker : string := "=[".

(** [_find_quote_char_in_part(part)]; [None] is Python's [None]. *)
Definition _find_quote_char_in_part (part : string) : option string :=
  if negb (Py.contains dquote part) && negb (Py.contains squote part)
  then None
  else
    let double_quote := Py.find dquote part in
    let single_quote := Py.find squote part in
    if (double_quote >=? 0) && (single_quote =? -1) then Some dquote
    else if (single_quote >=? 0) && (double_quote =? -1) then Some squote
    else if double_quote <? single_quote then Some dquote
    else if single_quote <? double_quote then Some squote
    else None.

(** The [while True] loop of [_eat_items]: [iter_parts] is what the shared
    iterator still holds; the iterator as the loop leaves it is returned
    with the joined chunks. *)
Fixpoint eat_loop (value : string) (iter_parts chunks : list string)
    (end_char replace_char : string) : outcome (string * list string) :=
  match iter_parts with
  | [] => Raise (ValueError value)
  | current :: iter_parts' =>
      let chunks' :=
        (chunks ++ [Py.replace_with_empty replace_char current])%list in
      if Py.endswith current end_char
      then Ok (Py.join comma chunks', iter_parts')
      else eat_loop value iter_parts' chunks' end_char replace_char
  end.

(** [_eat_items(value, iter_parts, part, end_char, replace_char)] *)
Definition _eat_items (value : string) (iter_parts : list string)
    (part end_char replace_char : string) : outcome (string * list string) :=
  eat_loop value iter_parts [Py.replace_with_empty replace_char part]
           end_char replace_char.

(** The test that takes a part as a bracketed list. *)
Definition is_list (value part : string) (quote_char : option string) : bool :=
  let list_start := Py.find list_marker part in
  (list_start >=? 0) && negb (Py.find rbrack value =? -1)
  && match quote_char with
     | None => true
     | Some q => Py.find q part >? list_start
     end.

Section ForParts.

(** The recursive call of [_split_with_quotes] and the [value] of the
    current call. *)
Variable recur : string -> outcome (list string).
Variable value : string.

(** The [for part in iter_parts] loop of [_split_with_quotes].  The loop
    and [_eat_items] draw from the same iterator, so the loop goes on with
    what [_eat_items] left; [k] bounds the number of iterations. *)
Fixpoint for_parts (k : nat) (iter_parts new_parts : list string)
    : outcome (list string) :=
  match iter_parts with
  | [] => Ok new_parts
  | part :: iter_parts =>
      match k with
      | O => OutOfFuel
      | S k =>
          let quote_char := _find_quote_char_in_part part in
          let list_start := Py.find list_marker part in
          if is_list value part quote_char then
            eaten <- (if Py.contains rbrack part then Ok (part, iter_parts)
                      else _eat_items value iter_parts part rbrack EmptyString) ;;
            let new_chunk := fst eaten in
            list_items <- recur (Py.slice new_chunk (list_start + 2) (-1)) ;;
            let new_chunk :=
              Py.slice_to new_chunk (list_start + 1)
              ++ Py.join comma list_items in
            for_parts k (snd eaten) (new_parts ++ [new_chunk])%list
          else
            match quote_char with
            | None => for_parts k iter_parts (new_parts ++ [part])%list
            | Some q =>
                if Py.count q part =? 2
                then for_parts k iter_parts
                       (new_parts ++ [Py.replace_with_empty q part])%list
                else
                  eaten <- _eat_items value iter_parts part q q ;;
                  for_parts k (snd eaten) (new_parts ++ [fst eaten])%list
            end
      end
  end.

End ForParts.

(** The [try] block of [_split_with_quotes]: a [csv.Error] becomes a
    [ValueError]; the [IndexError] of [[0]] is not caught. *)
Definition rough_parts (value : string) : outcome (list string) :=
  match Csv.reader value with
  | Ok rs => first_row rs
  | Raise csv_Error => Raise (ValueError ("Bad csv value: " ++ value))
  | Raise e => Raise e
  | OutOfFuel => OutOfFuel
  end.

(** [_split_with_quotes(value)], with [fuel] bounding the depth of the
    recursion into bracketed lists. *)
Fixpoint _split_with_quotes_fuel (fuel : nat) (value : string)
    : outcome (list string) :=
  match fuel with
  | O => OutOfFuel
  | S fuel' =>
      parts <- rough_parts value ;;
      for_parts (_split_with_quotes_fuel fuel') value
                (List.length parts) parts []
  end.

Definition _split_with_quotes (value : string) : outcome (list string) :=
  _split_with_quotes_fuel (S (String.length value)) value.

(** [split_on_commas(value)] *)
Definition split_on_commas (value : string) : outcome (list string) :=
  if negb (any_in [dquote; bslash; squote; rbrack; lbrack] value) then
    Ok (Py.split comma_c value)
  else if negb (any_in [dquote; squote; lbrack; rbrack] value) then
    rs <- Csv.reader value ;; first_row rs
  else
    _split_with_quotes value.

(** The separator of the components of an event name. *)
Definition dot_c : ascii := "."%char.

(** [find_service_and_method_in_event_name(event_name)] *)
Definition find_service_and_method_in_event_name (event_name : string)
    : option string * option string :=
  let split_event := List.tl (Py.split dot_c event_name) in
  let service_name :=
    if Z.of_nat (List.length split_event) >? 0
    then nth_error split_event 0 else None in
  let operation_name :=
    if Z.of_nat (List.length split_event) >? 1
    then nth_error split_event 1 else None in
  (service_name, operation_name).

(** ** [awscli/customizations/configure/export.py]: the [export] command *)

Module ExportCommand.

(** The lookup methods [get_config_variable] is asked to use. *)
Inductive method : Type := env | config.

(** What the lookups of the command return: the [NOT_SET] object of the
    package, or a string that came from the session.  The command tests
    with [is not NOT_SET], the identity of the object: a string from the
    session is never that object, whatever its text. *)
Inductive value : Type :=
| NOT_SET
| Str (s : string).

(** The object [session.get_credentials()] returns. *)
Record Credentials : Type := mkCredentials {
  access_key : string;
  secret_key : string
}.

(** The calls made on the session, in order. *)
Inductive call : Type :=
| get_config_variable_call (name : string) (m : method)
| get_credentials_call.

(** What the command acts on: the log of the calls on the session, and the
    lines printed on standard output. *)
Record World : Type := mkWorld {
  calls : list call;
  stdout : list string
}.

Definition M (A : Type) : Type := World -> A * World.

Definition ret {A : Type} (a : A) : M A := fun w => (a, w).

Definition mbind {A B : Type} (m : M A) (k : A -> M B) : M B :=
  fun w => let (a, w') := m w in k a w'.

Notation "x <~ m ;; k" := (mbind m (fun x => k))
  (at level 61, m at next level, right associativity).

(** [print(line)] *)
Definition print (line : string) : M unit :=
  fun w => (tt, mkWorld (calls w) (stdout w ++ [line])%list).

Section Command.

(** The text of the [NOT_SET] object, which the package defines outside
    this module. *)
Variable NOT_SET_text : string.

(** The session: what [get_config_variable(name, methods=(m,))] and
    [get_credentials()] answer ([None] is Python's [None]). *)
Variable session_get_config_variable : string -> method -> option string.
Variable session_get_credentials : option Credentials.

Definition get_config_variable (name : string) (m : method)
    : M (option string) :=
  fun w =>
    (session_get_config_variable name m,
     mkWorld (calls w ++ [get_config_variable_call name m])%list (stdout w)).

Definition get_credentials : M (option Credentials) :=
  fun w =>
    (session_get_credentials,
     mkWorld (calls w ++ [get_credentials_call])%list (stdout w)).

(** ["%s" % v] *)
Definition format (v : value) : string :=
  match v with
  | NOT_SET => NOT_SET_text
  | Str s => s
  end.

(** [ExportCommand._lookup_config(name)] *)
Definition _lookup_config (name : string) : M value :=
  v <~ get_config_variable name env ;;
  match v with
  | Some s => ret (Str s)
  | None =>
      v <~ get_config_variable name config ;;
      match v with
      | Some s => ret (Str s)
      | None => ret NOT_SET
      end
  end.

(** [ExportCommand._lookup_credentials()] *)
Definition _lookup_credentials : M (value * value) :=
  access <~ _lookup_config "access_key" ;;
  match access with
  | Str _ =>
      secret <~ _lookup_config "secret_key" ;;
      ret (access, secret)
  | NOT_SET =>
      credentials <~ get_credentials ;;
      match credentials with
      | None => ret (NOT_SET, NOT_SET)
      | Some c => ret (Str (access_key c), Str (secret_key c))
      end
  end.

(** [ExportCommand._run_main(args, parsed_globals)] *)
Definition _run_main : M unit :=
  keys <~ _lookup_credentials ;;
  _ <~ print ("export AWS_ACCESS_KEY_ID=" ++ format (fst keys)) ;;
  _ <~ print ("export AWS_SECRET_ACCESS_KEY=" ++ format (snd keys)) ;;
  region <~ _lookup_config "region" ;;
  match region with
  | NOT_SET => ret tt
  | Str _ => print ("export AWS_DEFAULT_REGION=" ++ format region)
  end.

End Command.

Definition empty_world : World := mkWorld [] [].

End ExportCommand.

(** ** Predicates the statements use *)

(** The character [c] occurs in [s]. *)
Definition occurs (c : ascii) (s : string) : Prop :=
  In c (list_ascii_of_string s).

(** [n] is the position of the first [c] in [s]. *)
Definition first_at (c : ascii) (s : string) (n : nat) : Prop :=
  String.get n s = Some c /\
  forall m, (m < n)%nat -> String.get m s <> Some c.

(** None of the double quote, the single quote and the two brackets occurs
    in [s]. *)
Definition no_quote_or_bracket (s : string) : Prop :=
  ~ occurs dquote_c s /\ ~ occurs squote_c s /\
  ~ occurs lbrack_c s /\ ~ occurs rbrack_c s.

(** [s] is plain: it has no quote, no bracket and no backslash. *)
Definition plain (s : string) : Prop :=
  no_quote_or_bracket s /\ ~ occurs bslash_c s.

(** The parts [eaten] after [part] close the list that [part] opens: either
    nothing is eaten because the part is taken alone, or the part holds no
    closing bracket and the last part eaten is the first to end with one. *)
Definition closes (part : string) (eaten : list string) : Prop :=
  eaten = [] \/
  (Py.contains rbrack part = false /\
   exists mid last,
     eaten = (mid ++ [last])%list /\
     (forall p, In p mid -> Py.endswith p rbrack = false) /\
     Py.endswith last rbrack = true).

(** [t] with a backslash put before every comma and every backslash. *)
Fixpoint escape (t : string) : string :=
  match t with
  | EmptyString => EmptyString
  | String c t' =>
      if Ascii.eqb c comma_c || Ascii.eqb c bslash_c
      then String bslash_c (String c (escape t'))
      else String c (escape t')
  end.

(** A token the [csv] reader takes as it is once escaped: it holds no
    double quote and no line break, and fits in a field. *)
Definition csv_token (t : string) : Prop :=
  ~ occurs dquote_c t /\ ~ occurs nl_c t /\ ~ occurs cr_c t /\
  Py.len t <= Csv.field_limit.

(** The reader is between fields or inside an unquoted field. *)
Definition reading (st : Csv.ParserState) : Prop :=
  st = Csv.START_RECORD \/ st = Csv.START_FIELD \/ st = Csv.IN_FIELD.

(** ** Measures for the bounds of the model *)

(** The length of the comma join of [l], plus one when [l] is not empty. *)
Fixpoint weight (l : list string) : nat :=
  match l with
  | [] => 0%nat
  | x :: l' => (S (String.length x) + weight l')%nat
  end.

(** What the reader has kept so far. *)
Definition kept (r : Csv.Reader) : nat :=
  (weight (Csv.fields r) + String.length (Csv.field r))%nat.

(** An escape character that was fed stands for a character still to be
    kept. *)
Definition owed (st : Csv.ParserState) : nat :=
  match st with
  | Csv.ESCAPED_CHAR | Csv.ESCAPE_IN_QUOTED_FIELD => 1%nat
  | _ => 0%nat
  end.

(** The save that ends a record counts one comma more than the join of
    the record has. *)
Definition credit (st : Csv.ParserState) : nat :=
  match st with
  | Csv.EAT_CRNL => 1%nat
  | _ => 0%nat
  end.

(** The reader has kept no more than the [n] characters it was fed. *)
Definition within (r : Csv.Reader) (n : nat) : Prop :=
  (kept r + owed (Csv.state r) <= n + credit (Csv.state r))%nat /\
  (Csv.state r = Csv.EAT_CRNL \/ Csv.state r = Csv.START_RECORD ->
   Csv.field r = EmptyString).

(** * Properties *)

(** ** The string operations *)

Lemma prefix_chr (c c' : ascii) (s : string) :
  prefix (chr c) (String c' s) = Ascii.eqb c c'.
Proof.
  unfold chr; simpl.
  destruct (ascii_dec c c') as [->|Hne].
  - rewrite Ascii.eqb_refl. now destruct s.
  - symmetry. now apply Ascii.eqb_neq.
Qed.

Lemma find_from_chr_cons (c c' : ascii) (s : string) (i : Z) :
  Py.find_from (chr c) (String c' s) i =
  if Ascii.eqb c c' then i else Py.find_from (chr c) s (i + 1).
Proof.
  change (Py.find_from (chr c) (String c' s) i)
    with (if prefix (chr c) (String c' s) then i
          else Py.find_from (chr c) s (i + 1)).
  now rewrite prefix_chr.
Qed.

Lemma find_from_chr_nil (c : ascii) (i : Z) :
  Py.find_from (chr c) EmptyString i = -1.
Proof. reflexivity. Qed.

Lemma find_from_eq (sub s : string) (i : Z) :
  Py.find_from sub s i =
  if prefix sub s then i
  else match s with
       | EmptyString => -1
       | String _ s' => Py.find_from sub s' (i + 1)
       end.
Proof. now destruct s. Qed.


Lemma find_chr_absent (c : ascii) (s : string) (i : Z) :
  0 <= i -> (Py.find_from (chr c) s i = -1 <-> ~ occurs c s).
Proof.
  unfold occurs. revert i; induction s as [|c' s IH]; intros i Hi.
  - rewrite find_from_chr_nil. simpl. tauto.
  - rewrite find_from_chr_cons. simpl.
    destruct (Ascii.eqb c c') eqn:E.
    + apply Ascii.eqb_eq in E. subst. split; [lia|]. intros H; exfalso; auto.
    + apply Ascii.eqb_neq in E. rewrite (IH (i + 1)) by lia.
      split; [intros H [H1|H1]; [congruence|auto]|auto].
Qed.

Lemma contains_chr_false (c : ascii) (s : string) :
  Py.contains (chr c) s = false <-> ~ occurs c s.
Proof.
  unfold Py.contains, Py.find.
  rewrite negb_false_iff, Z.eqb_eq. now apply find_chr_absent.
Qed.

Lemma contains_chr_true (c : ascii) (s : string) :
  Py.contains (chr c) s = true <-> occurs c s.
Proof.
  destruct (Py.contains (chr c) s) eqn:E.
  - split; [intros _|reflexivity].
    destruct (in_dec ascii_dec c (list_ascii_of_string s)) as [H|H]; [exact H|].
    apply contains_chr_false in H. congruence.
  - apply contains_chr_false in E. split; [discriminate|contradiction].
Qed.

(** The first position of a character is what [find] answers. *)
Lemma find_chr_first_at (c : ascii) (s : string) (n : nat) (i : Z) :
  first_at c s n -> Py.find_from (chr c) s i = i + Z.of_nat n.
Proof.
  revert n i; induction s as [|c' s IH]; intros n i [Hget Hmin].
  - now destruct n.
  - rewrite find_from_chr_cons. destruct n as [|n].
    + simpl in Hget. injection Hget as ->. rewrite Ascii.eqb_refl. lia.
    + destruct (Ascii.eqb c c') eqn:E.
      * apply Ascii.eqb_eq in E. subst. exfalso.
        apply (Hmin 0%nat); [lia|reflexivity].
      * rewrite (IH n (i + 1)); [lia|]. split; [exact Hget|].
        intros m Hm. apply (Hmin (S m)). lia.
Qed.

(** A character that occurs has a first position. *)
Lemma occurs_first_at (c : ascii) (s : string) :
  occurs c s -> exists n, first_at c s n.
Proof.
  unfold occurs. induction s as [|c' s IH]; simpl; [tauto|].
  intros H. destruct (ascii_dec c' c) as [->|Hne].
  - exists 0%nat. split; [reflexivity|]. intros m Hm; lia.
  - destruct H as [H|H]; [contradiction|].
    destruct (IH H) as [n [Hget Hmin]]. exists (S n). split; [exact Hget|].
    intros [|m] Hm; simpl; [congruence|]. apply Hmin. lia.
Qed.

Lemma first_at_occurs (c : ascii) (s : string) (n : nat) :
  first_at c s n -> occurs c s.
Proof.
  unfold occurs. intros [Hget _]. revert n Hget.
  induction s as [|c' s IH]; intros [|n] Hget; simpl in *; try discriminate.
  - left. congruence.
  - right. eauto.
Qed.

(** ** Plain comma splitting *)

Lemma split_not_nil (sep : ascii) (s : string) : Py.split sep s <> [].
Proof.
  destruct s as [|c s]; simpl; [discriminate|].
  destruct (Ascii.eqb c sep); [discriminate|].
  destruct (Py.split sep s); discriminate.
Qed.

(** Joining the tokens of a split with the separator gives the string back. *)
Lemma join_split (sep : ascii) (s : string) :
  Py.join (chr sep) (Py.split sep s) = s.
Proof.
  induction s as [|c s IH]; [reflexivity|].
  simpl. destruct (Ascii.eqb c sep) eqn:E.
  - apply Ascii.eqb_eq in E. subst c.
    destruct (Py.split sep s) as [|t ts] eqn:S; [now apply split_not_nil in S|].
    change (Py.join (chr sep) (EmptyString :: t :: ts))
      with (chr sep ++ Py.join (chr sep) (t :: ts)).
    now rewrite IH.
  - destruct (Py.split sep s) as [|t ts] eqn:S; [now apply split_not_nil in S|].
    rewrite <- IH. now destruct ts.
Qed.

(** No token of a split holds the separator. *)
Lemma split_tokens_free (sep : ascii) (s t : string) :
  In t (Py.split sep s) -> ~ occurs sep t.
Proof.
  unfold occurs. revert t; induction s as [|c s IH]; intros t; simpl.
  - intros [<-|[]]. simpl. tauto.
  - destruct (Ascii.eqb c sep) eqn:E.
    + intros [<-|H]; [simpl; tauto|now apply IH].
    + apply Ascii.eqb_neq in E.
      destruct (Py.split sep s) as [|hd tl] eqn:S.
      * intros [<-|[]]. simpl. intros [H|[]]. congruence.
      * intros [<-|H].
        -- simpl. intros [H|H]; [congruence|]. apply (IH hd); simpl; auto.
        -- apply IH. simpl; auto.
Qed.

(** Splitting a token without separator in front of a separator. *)
Lemma split_app_sep (sep : ascii) (t rest : string) :
  ~ occurs sep t ->
  Py.split sep (t ++ String sep rest) = t :: Py.split sep rest.
Proof.
  unfold occurs. induction t as [|c t IH]; simpl; intros H.
  - now rewrite Ascii.eqb_refl.
  - destruct (Ascii.eqb c sep) eqn:E.
    + apply Ascii.eqb_eq in E. exfalso; auto.
    + rewrite IH by auto. reflexivity.
Qed.

Lemma split_free (sep : ascii) (t : string) :
  ~ occurs sep t -> Py.split sep t = [t].
Proof.
  unfold occurs. induction t as [|c t IH]; simpl; intros H; [reflexivity|].
  destruct (Ascii.eqb c sep) eqn:E.
  - apply Ascii.eqb_eq in E. exfalso; auto.
  - rewrite IH by auto. reflexivity.
Qed.

(** Splitting the join of tokens that hold no separator gives the tokens
    back, when there is at least one. *)
Lemma split_join (sep : ascii) (ts : list string) :
  ts <> [] -> (forall t, In t ts -> ~ occurs sep t) ->
  Py.split sep (Py.join (chr sep) ts) = ts.
Proof.
  induction ts as [|t ts IH]; [congruence|]. intros _ Hfree.
  destruct ts as [|t' ts].
  - simpl. apply split_free. apply Hfree. simpl; auto.
  - change (Py.join (chr sep) (t :: t' :: ts))
      with (t ++ String sep (Py.join (chr sep) (t' :: ts))).
    rewrite split_app_sep by (apply Hfree; simpl; auto).
    rewrite IH; [reflexivity|discriminate|].
    intros u Hu. apply Hfree. simpl in *; tauto.
Qed.

(** The first branch of [split_on_commas]. *)
Lemma split_on_commas_fast (s : string) :
  plain s -> split_on_commas s = Ok (Py.split comma_c s).
Proof.
  intros [[Hd [Hs [Hl Hr]]] Hb]. unfold split_on_commas, any_in. simpl.
  apply contains_chr_false in Hd, Hs, Hl, Hr, Hb.
  unfold dquote, squote, bslash, lbrack, rbrack.
  now rewrite Hd, Hs, Hl, Hr, Hb.
Qed.

(** C1: on an input that holds no double quote, backslash, single quote or
    bracket, [split_on_commas] returns the plain comma split of the input;
    the empty input gives the single empty token. *)
Theorem split_on_commas_plain :
  (forall s, plain s -> split_on_commas s = Ok (Py.split comma_c s)) /\
  split_on_commas EmptyString = Ok [EmptyString].
Proof.
  split; [exact split_on_commas_fast|reflexivity].
Qed.

Lemma plain_abc : plain "a,b,c".
Proof.
  unfold plain, no_quote_or_bracket, occurs. simpl.
  repeat split; intros H; repeat (destruct H as [H|H]; [discriminate H|]);
    exact H.
Qed.

Lemma split_on_commas_plain_witness :
  plain "a,b,c" /\ split_on_commas "a,b,c" = Ok ["a"; "b"; "c"].
Proof.
  split; [exact plain_abc|].
  exact (proj1 split_on_commas_plain "a,b,c" plain_abc).
Defined.

(** ** The quote character of a part *)

(** The quote character of a part that holds no quote, or quotes of one
    kind only. *)
Lemma find_quote_char_one_kind (part : string) :
  (~ occurs dquote_c part -> ~ occurs squote_c part ->
   _find_quote_char_in_part part = None) /\
  (occurs dquote_c part -> ~ occurs squote_c part ->
   _find_quote_char_in_part part = Some dquote) /\
  (occurs squote_c part -> ~ occurs dquote_c part ->
   _find_quote_char_in_part part = Some squote).
Proof.
  split; [|split].
  - intros Hd Hs. unfold _find_quote_char_in_part.
    apply contains_chr_false in Hd, Hs. unfold dquote, squote.
    now rewrite Hd, Hs.
  - intros Hd Hs. unfold _find_quote_char_in_part.
    destruct (occurs_first_at _ _ Hd) as [i Hi].
    apply contains_chr_true in Hd. unfold dquote, squote. rewrite Hd. simpl.
    unfold Py.find. rewrite (find_chr_first_at _ _ _ 0 Hi).
    apply (find_chr_absent _ _ 0) in Hs; [|lia]. rewrite Hs.
    replace (0 + Z.of_nat i >=? 0) with true by (symmetry; apply Z.geb_le; lia).
    reflexivity.
  - intros Hs Hd. unfold _find_quote_char_in_part.
    destruct (occurs_first_at _ _ Hs) as [j Hj].
    apply contains_chr_true in Hs. unfold dquote, squote. rewrite Hs.
    rewrite andb_false_r.
    unfold Py.find. rewrite (find_chr_first_at _ _ _ 0 Hj).
    apply (find_chr_absent _ _ 0) in Hd; [|lia]. rewrite Hd.
    simpl (-1 >=? 0). cbv iota. simpl (false && _).
    replace (0 + Z.of_nat j >=? 0) with true by (symmetry; apply Z.geb_le; lia).
    reflexivity.
Qed.

(** C7: the quote character of a part is found from the first double quote
    and the first single quote: none when the part has neither, the one
    present when it has only one kind, and the one that comes first when it
    has both. *)
Theorem find_quote_char_earliest (part : string) :
  (~ occurs dquote_c part -> ~ occurs squote_c part ->
   _find_quote_char_in_part part = None) /\
  (occurs dquote_c part -> ~ occurs squote_c part ->
   _find_quote_char_in_part part = Some dquote) /\
  (occurs squote_c part -> ~ occurs dquote_c part ->
   _find_quote_char_in_part part = Some squote) /\
  (forall i j, first_at dquote_c part i -> first_at squote_c part j ->
     ((i < j)%nat -> _find_quote_char_in_part part = Some dquote) /\
     ((j < i)%nat -> _find_quote_char_in_part part = Some squote)) /\
  (_find_quote_char_in_part part = None ->
   ~ occurs dquote_c part /\ ~ occurs squote_c part).
Proof.
  assert (Hnone : ~ occurs dquote_c part -> ~ occurs squote_c part ->
                  _find_quote_char_in_part part = None).
  { intros Hd Hs. unfold _find_quote_char_in_part.
    apply contains_chr_false in Hd, Hs. unfold dquote, squote.
    now rewrite Hd, Hs. }
  assert (Hd1 : occurs dquote_c part -> ~ occurs squote_c part ->
                _find_quote_char_in_part part = Some dquote).
  { intros Hd Hs. unfold _find_quote_char_in_part.
    destruct (occurs_first_at _ _ Hd) as [i Hi].
    apply contains_chr_true in Hd. unfold dquote, squote. rewrite Hd. simpl.
    unfold Py.find. rewrite (find_chr_first_at _ _ _ 0 Hi).
    apply (find_chr_absent _ _ 0) in Hs; [|lia]. rewrite Hs.
    replace (0 + Z.of_nat i >=? 0) with true by (symmetry; apply Z.geb_le; lia).
    reflexivity. }
  assert (Hs1 : occurs squote_c part -> ~ occurs dquote_c part ->
                _find_quote_char_in_part part = Some squote).
  { intros Hs Hd. unfold _find_quote_char_in_part.
    destruct (occurs_first_at _ _ Hs) as [j Hj].
    apply contains_chr_true in Hs. unfold dquote, squote. rewrite Hs.
    rewrite andb_false_r.
    unfold Py.find. rewrite (find_chr_first_at _ _ _ 0 Hj).
    apply (find_chr_absent _ _ 0) in Hd; [|lia]. rewrite Hd.
    simpl (-1 >=? 0). cbv iota. simpl (false && _).
    replace (0 + Z.of_nat j >=? 0) with true by (symmetry; apply Z.geb_le; lia).
    reflexivity. }
  assert (Hboth : forall i j, first_at dquote_c part i ->
            first_at squote_c part j ->
            ((i < j)%nat -> _find_quote_char_in_part part = Some dquote) /\
            ((j < i)%nat -> _find_quote_char_in_part part = Some squote)).
  { intros i j Hi Hj. unfold _find_quote_char_in_part.
    pose proof (first_at_occurs _ _ _ Hi) as Hd.
    apply contains_chr_true in Hd. unfold dquote, squote. rewrite Hd. simpl.
    unfold Py.find.
    rewrite (find_chr_first_at _ _ _ 0 Hi), (find_chr_first_at _ _ _ 0 Hj).
    replace (0 + Z.of_nat j =? -1) with false by (symmetry; apply Z.eqb_neq; lia).
    replace (0 + Z.of_nat i =? -1) with false by (symmetry; apply Z.eqb_neq; lia).
    rewrite !andb_false_r.
    split; intros Hlt.
    - replace (0 + Z.of_nat i <? 0 + Z.of_nat j) with true
        by (symmetry; apply Z.ltb_lt; lia). reflexivity.
    - replace (0 + Z.of_nat i <? 0 + Z.of_nat j) with false
        by (symmetry; apply Z.ltb_ge; lia).
      replace (0 + Z.of_nat j <? 0 + Z.of_nat i) with true
        by (symmetry; apply Z.ltb_lt; lia). reflexivity. }
  split; [exact Hnone|]. split; [exact Hd1|]. split; [exact Hs1|].
  split; [exact Hboth|]. intros H. split.
  - intros Hd.
    destruct (in_dec ascii_dec squote_c (list_ascii_of_string part)) as [Hs|Hs].
    + destruct (occurs_first_at _ _ Hd) as [i Hi].
      destruct (occurs_first_at _ _ Hs) as [j Hj].
      destruct (Hboth i j Hi Hj) as [H1 H2].
      destruct (Nat.lt_total i j) as [Hlt|[Heq|Hlt]].
      * rewrite H1 in H by exact Hlt. discriminate.
      * subst j. destruct Hi as [Hi _], Hj as [Hj _]. rewrite Hi in Hj.
        discriminate.
      * rewrite H2 in H by exact Hlt. discriminate.
    + rewrite Hd1 in H by assumption. discriminate.
  - intros Hs.
    destruct (in_dec ascii_dec dquote_c (list_ascii_of_string part)) as [Hd|Hd].
    + destruct (occurs_first_at _ _ Hd) as [i Hi].
      destruct (occurs_first_at _ _ Hs) as [j Hj].
      destruct (Hboth i j Hi Hj) as [H1 H2].
      destruct (Nat.lt_total i j) as [Hlt|[Heq|Hlt]].
      * rewrite H1 in H by exact Hlt. discriminate.
      * subst j. destruct Hi as [Hi _], Hj as [Hj _]. rewrite Hi in Hj.
        discriminate.
      * rewrite H2 in H by exact Hlt. discriminate.
    + rewrite Hs1 in H by assumption. discriminate.
Qed.

Lemma find_quote_char_earliest_witness :
  first_at dquote_c ("k='a" ++ dquote) 4 /\
  first_at squote_c ("k='a" ++ dquote) 2 /\
  _find_quote_char_in_part ("k='a" ++ dquote) = Some squote.
Proof.
  assert (Hd : first_at dquote_c ("k='a" ++ dquote) 4).
  { split; [reflexivity|].
    intros m Hm. do 4 (destruct m as [|m]; [discriminate|]). lia. }
  assert (Hs : first_at squote_c ("k='a" ++ dquote) 2).
  { split; [reflexivity|].
    intros m Hm. do 2 (destruct m as [|m]; [discriminate|]). lia. }
  split; [exact Hd|]. split; [exact Hs|].
  apply (proj2 (proj1 (proj2 (proj2 (proj2
           (find_quote_char_earliest ("k='a" ++ dquote))))) 4%nat 2%nat Hd Hs)).
  lia.
Defined.

(** ** Eating items from the shared iterator *)

(** When no remaining part ends with the end character, the iterator runs
    out and [ValueError(value)] is raised. *)
Lemma eat_loop_exhausted (value : string) (iter_parts chunks : list string)
    (end_char replace_char : string) :
  (forall p, In p iter_parts -> Py.endswith p end_char = false) ->
  eat_loop value iter_parts chunks end_char replace_char
    = Raise (ValueError value).
Proof.
  revert chunks; induction iter_parts as [|p ps IH]; intros chunks H.
  - reflexivity.
  - simpl. rewrite (H p) by (simpl; auto). apply IH.
    intros q Hq. apply H. simpl; auto.
Qed.

(** When [last] is the first remaining part that ends with the end
    character, the parts up to it are joined and the iterator is left
    after it. *)
Lemma eat_loop_found (value : string) (mid : list string) (last : string)
    (rest chunks : list string) (end_char replace_char : string) :
  (forall p, In p mid -> Py.endswith p end_char = false) ->
  Py.endswith last end_char = true ->
  eat_loop value (mid ++ last :: rest)%list chunks end_char replace_char
    = Ok (Py.join comma
            (chunks ++ map (Py.replace_with_empty replace_char)
                           (mid ++ [last]))%list,
          rest).
Proof.
  revert chunks; induction mid as [|p ps IH]; intros chunks Hmid Hlast.
  - simpl. now rewrite Hlast.
  - simpl. rewrite (Hmid p) by (simpl; auto).
    rewrite IH; [|intros q Hq; apply Hmid; simpl; auto|exact Hlast].
    now rewrite <- app_assoc.
Qed.

(** Whatever [_eat_items] raises is [ValueError(value)]. *)
Lemma eat_loop_raises (value : string) (iter_parts chunks : list string)
    (end_char replace_char : string) (e : exn) :
  eat_loop value iter_parts chunks end_char replace_char = Raise e ->
  e = ValueError value.
Proof.
  revert chunks; induction iter_parts as [|p ps IH]; intros chunks; simpl.
  - congruence.
  - destruct (Py.endswith p end_char); [discriminate|apply IH].
Qed.

Lemma eat_loop_fuel (value : string) (iter_parts chunks : list string)
    (end_char replace_char : string) :
  eat_loop value iter_parts chunks end_char replace_char <> OutOfFuel.
Proof.
  revert chunks; induction iter_parts as [|p ps IH]; intros chunks; simpl.
  - discriminate.
  - destruct (Py.endswith p end_char); [discriminate|apply IH].
Qed.

(** [_eat_items] leaves fewer parts in the iterator than it found. *)
Lemma eat_loop_rest (value : string) (iter_parts chunks : list string)
    (end_char replace_char chunk : string) (rest : list string) :
  eat_loop value iter_parts chunks end_char replace_char = Ok (chunk, rest) ->
  (List.length rest < List.length iter_parts)%nat.
Proof.
  revert chunks; induction iter_parts as [|p ps IH]; intros chunks; simpl.
  - discriminate.
  - destruct (Py.endswith p end_char).
    + intros H. injection H as _ <-. lia.
    + intros H. apply IH in H. lia.
Qed.

(** ** The loop over the rough parts *)

(** A part with no quote character and no list marker is kept as it is. *)
Lemma for_parts_keep (recur : string -> outcome (list string))
    (value : string) (k : nat) (part : string) (rest new_parts : list string) :
  _find_quote_char_in_part part = None ->
  Py.find list_marker part = -1 ->
  for_parts recur value (S k) (part :: rest) new_parts
    = for_parts recur value k rest (new_parts ++ [part]).
Proof.
  intros Hq Hl. simpl. unfold is_list. rewrite Hq, Hl. reflexivity.
Qed.

Lemma for_parts_keep_all (recur : string -> outcome (list string))
    (value : string) (k : nat) (pre rest new_parts : list string) :
  (forall p, In p pre ->
     _find_quote_char_in_part p = None /\ Py.find list_marker p = -1) ->
  for_parts recur value (List.length pre + k) (pre ++ rest) new_parts
    = for_parts recur value k rest (new_parts ++ pre).
Proof.
  revert new_parts; induction pre as [|p ps IH]; intros new_parts H.
  - now rewrite app_nil_r.
  - destruct (H p) as [Hq Hl]; [simpl; auto|].
    change (List.length (p :: ps) + k)%nat with (S (List.length ps + k)).
    change ((p :: ps) ++ rest)%list with (p :: (ps ++ rest))%list.
    rewrite for_parts_keep by assumption.
    rewrite IH by (intros q Hq'; apply H; simpl; auto).
    now rewrite <- app_assoc.
Qed.

(** Parts with no quote character and no list marker that end the input
    are all kept. *)
Lemma for_parts_keep_rest (recur : string -> outcome (list string))
    (value : string) (k : nat) (rest new_parts : list string) :
  (forall p, In p rest ->
     _find_quote_char_in_part p = None /\ Py.find list_marker p = -1) ->
  (List.length rest <= k)%nat ->
  for_parts recur value k rest new_parts = Ok (new_parts ++ rest)%list.
Proof.
  revert k new_parts; induction rest as [|p ps IH]; intros k new_parts H Hk.
  - rewrite app_nil_r. now destruct k.
  - destruct k as [|k]; [simpl in Hk; lia|].
    destruct (H p) as [Hq Hl]; [simpl; auto|].
    rewrite for_parts_keep by assumption.
    rewrite IH; [|intros q Hq'; apply H; simpl; auto|simpl in Hk; lia].
    now rewrite <- app_assoc.
Qed.

(** An input that holds a closing bracket goes to [_split_with_quotes]. *)
Lemma split_on_commas_general (value : string) :
  Py.contains rbrack value = true ->
  split_on_commas value = _split_with_quotes value.
Proof.
  intros H. unfold split_on_commas, any_in. simpl. rewrite H.
  now rewrite !orb_true_r.
Qed.

Lemma is_list_closing (value part : string) (q : option string) :
  is_list value part q = true -> Py.contains rbrack value = true.
Proof.
  unfold is_list, Py.contains. intros H.
  apply andb_prop in H as [H _]. apply andb_prop in H as [_ H]. exact H.
Qed.

Lemma split_with_quotes_unfold (value : string) (parts : list string) :
  rough_parts value = Ok parts ->
  _split_with_quotes value
    = for_parts (_split_with_quotes_fuel (String.length value)) value
                (List.length parts) parts [].
Proof.
  intros H. unfold _split_with_quotes. simpl. now rewrite H.
Qed.

(** ** Failures of the loop *)

Lemma eat_loop_incl (value : string) (iter_parts chunks : list string)
    (end_char replace_char chunk : string) (rest : list string) :
  eat_loop value iter_parts chunks end_char replace_char = Ok (chunk, rest) ->
  incl rest iter_parts.
Proof.
  revert chunks; induction iter_parts as [|p ps IH]; intros chunks; simpl.
  - discriminate.
  - destruct (Py.endswith p end_char).
    + intros H. injection H as _ <-. apply incl_tl, incl_refl.
    + intros H. apply IH in H. now apply incl_tl.
Qed.

(** When no part is taken as a list, the loop can only fail in
    [_eat_items], with [ValueError(value)]. *)
Lemma for_parts_raises (recur : string -> outcome (list string))
    (value : string) (k : nat) (iter_parts new_parts : list string) (e : exn) :
  (forall p, In p iter_parts ->
     is_list value p (_find_quote_char_in_part p) = false) ->
  for_parts recur value k iter_parts new_parts = Raise e ->
  e = ValueError value.
Proof.
  revert iter_parts new_parts.
  induction k as [|k IH]; intros [|part rest] new_parts Hno; simpl;
    try discriminate.
  rewrite (Hno part) by (simpl; auto).
  assert (Hrest : forall p, In p rest ->
            is_list value p (_find_quote_char_in_part p) = false)
    by (intros p Hp; apply Hno; simpl; auto).
  destruct (_find_quote_char_in_part part) as [q|]; [|now apply IH].
  destruct (Py.count q part =? 2); [now apply IH|].
  unfold _eat_items.
  destruct (eat_loop value rest [Py.replace_with_empty q part] q q)
    as [[chunk rest']| e' |] eqn:E; simpl.
  - apply IH. intros p Hp. apply Hrest. eapply eat_loop_incl; eauto.
  - intros H. injection H as <-. eapply eat_loop_raises; eauto.
  - discriminate.
Qed.

Lemma any_in_quote_or_bracket (value : string) :
  occurs dquote_c value \/ occurs squote_c value \/
  occurs lbrack_c value \/ occurs rbrack_c value ->
  any_in [dquote; squote; lbrack; rbrack] value = true /\
  any_in [dquote; bslash; squote; rbrack; lbrack] value = true.
Proof.
  unfold any_in; simpl. intros H.
  repeat rewrite <- contains_chr_true in H.
  unfold dquote, squote, lbrack, rbrack.
  destruct H as [H|[H|[H|H]]]; rewrite H; split;
    repeat (reflexivity || rewrite orb_true_r || rewrite orb_true_l).
Qed.

Lemma split_on_commas_quoting (value : string) :
  occurs dquote_c value \/ occurs squote_c value \/
  occurs lbrack_c value \/ occurs rbrack_c value ->
  split_on_commas value = _split_with_quotes value.
Proof.
  intros H. apply any_in_quote_or_bracket in H as [H4 H5].
  unfold split_on_commas. now rewrite H5, H4.
Qed.

(** ** Slices of a chunk *)

Lemma substring_skip (a s : string) (n m : nat) :
  substring (String.length a + n) m (a ++ s) = substring n m s.
Proof. induction a as [|c a IH]; simpl; [reflexivity|exact IH]. Qed.

Lemma substring_take (b c : string) :
  substring 0 (String.length b) (b ++ c) = b.
Proof.
  induction b as [|x b IH]; simpl; [now destruct c|now rewrite IH].
Qed.

Lemma length_append (a b : string) :
  String.length (a ++ b) = (String.length a + String.length b)%nat.
Proof. induction a as [|c a IH]; simpl; [reflexivity|now rewrite IH]. Qed.

(** [chunk[:len(prefix) + 1]] of a chunk [prefix=[inner]]. *)
Lemma slice_to_marker (prefix inner : string) :
  Py.slice_to (prefix ++ list_marker ++ inner ++ rbrack) (Py.len prefix + 1)
    = prefix ++ "=".
Proof.
  unfold Py.slice_to, Py.slice, Py.slice_bound, Py.len.
  rewrite !length_append. simpl String.length.
  replace (0 <? 0) with false by reflexivity.
  replace (Z.of_nat (String.length prefix) + 1 <? 0) with false
    by (symmetry; apply Z.ltb_ge; lia).
  set (n := Z.of_nat (String.length prefix + (2 + (String.length inner + 1)))).
  replace (Z.max 0 (Z.min n 0)) with 0 by lia.
  replace (Z.max 0 (Z.min n (Z.of_nat (String.length prefix) + 1)))
    with (Z.of_nat (String.length prefix) + 1) by lia.
  replace (Z.to_nat (Z.of_nat (String.length prefix) + 1 - 0))
    with (String.length (prefix ++ "=")) by (rewrite length_append; simpl; lia).
  change (prefix ++ list_marker ++ inner ++ rbrack)
    with (prefix ++ String "=" (String "[" (inner ++ rbrack))).
  replace (prefix ++ String "=" (String "[" (inner ++ rbrack)))
    with ((prefix ++ "=") ++ String "[" (inner ++ rbrack)).
  - simpl Z.to_nat. apply substring_take.
  - clear. induction prefix as [|c p IH]; simpl; [reflexivity|now rewrite IH].
Qed.

(** [chunk[len(prefix) + 2:-1]] of a chunk [prefix=[inner]]. *)
Lemma slice_inside (prefix inner : string) :
  Py.slice (prefix ++ list_marker ++ inner ++ rbrack) (Py.len prefix + 2) (-1)
    = inner.
Proof.
  unfold Py.slice, Py.slice_bound, Py.len.
  rewrite !length_append. simpl String.length.
  replace (-1 <? 0) with true by reflexivity.
  replace (Z.of_nat (String.length prefix) + 2 <? 0) with false
    by (symmetry; apply Z.ltb_ge; lia).
  set (n := Z.of_nat (String.length prefix + (2 + (String.length inner + 1)))).
  replace (Z.max 0 (Z.min n (Z.of_nat (String.length prefix) + 2)))
    with (Z.of_nat (String.length prefix + 2)) by lia.
  replace (Z.max 0 (Z.min n (-1 + n)) - Z.of_nat (String.length prefix + 2))
    with (Z.of_nat (String.length inner)) by lia.
  rewrite !Nat2Z.id. rewrite substring_skip.
  change (list_marker ++ inner ++ rbrack)
    with (String "=" (String "[" (inner ++ rbrack))).
  simpl substring. apply substring_take.
Qed.

(** ** The step of the loop on a list *)

Lemma occurs_append (c : ascii) (a b : string) :
  occurs c (a ++ b) <-> occurs c a \/ occurs c b.
Proof.
  unfold occurs. induction a as [|x a IH]; simpl; [tauto|].
  rewrite IH. tauto.
Qed.

Lemma append_assoc_string (a b c : string) : (a ++ b) ++ c = a ++ b ++ c.
Proof. induction a as [|x a IH]; simpl; [reflexivity|now rewrite IH]. Qed.

Lemma map_replace_nothing (l : list string) :
  map (Py.replace_with_empty EmptyString) l = l.
Proof. induction l as [|x l IH]; simpl; [reflexivity|now rewrite IH]. Qed.

(** The step of the loop on a part taken as a list. *)
Lemma for_parts_list_step (recur : string -> outcome (list string))
    (value : string) (k : nat) (part : string) (iter_parts new_parts : list string) :
  is_list value part (_find_quote_char_in_part part) = true ->
  for_parts recur value (S k) (part :: iter_parts) new_parts =
  (eaten <- (if Py.contains rbrack part then Ok (part, iter_parts)
             else _eat_items value iter_parts part rbrack EmptyString) ;;
   list_items <-
     recur (Py.slice (fst eaten) (Py.find list_marker part + 2) (-1)) ;;
   for_parts recur value k (snd eaten)
     (new_parts ++
      [Py.slice_to (fst eaten) (Py.find list_marker part + 1)
       ++ Py.join comma list_items])).
Proof. intros H. simpl. now rewrite H. Qed.

(** The step of the loop on a part [prefix=[...] taken as a list, when the
    chunk up to the closing part reads [prefix=[inner]]. *)
Lemma for_parts_list_spliced (recur : string -> outcome (list string))
    (value : string) (k : nat) (prefix inner part : string)
    (eaten rest new_parts : list string) :
  Py.find list_marker part = Py.len prefix ->
  is_list value part (_find_quote_char_in_part part) = true ->
  closes part eaten ->
  Py.join comma (part :: eaten) = prefix ++ list_marker ++ inner ++ rbrack ->
  for_parts recur value (S k) (part :: eaten ++ rest) new_parts =
  (list_items <- recur inner ;;
   for_parts recur value k rest
     (new_parts ++ [prefix ++ "=" ++ Py.join comma list_items])).
Proof.
  intros Hfind Hlist Hclose Hjoin.
  rewrite for_parts_list_step by exact Hlist. rewrite Hfind.
  destruct Hclose as [-> | [Hno [mid [last [-> [Hmid Hlast]]]]]].
  - change (Py.join comma [part]) with part in Hjoin. subst part.
    assert (Hc : Py.contains rbrack
                   (prefix ++ list_marker ++ inner ++ rbrack) = true).
    { apply contains_chr_true. rewrite !occurs_append.
      right; right; right. unfold occurs; simpl; auto. }
    rewrite Hc. cbn [bind fst snd].
    rewrite slice_inside, slice_to_marker.
    destruct (recur inner); cbn [bind]; try reflexivity.
    now rewrite append_assoc_string.
  - rewrite Hno. unfold _eat_items. rewrite <- app_assoc.
    change ([last] ++ rest)%list with (last :: rest).
    rewrite (eat_loop_found value mid last rest) by assumption.
    rewrite map_replace_nothing.
    change (Py.replace_with_empty EmptyString part) with part.
    change ([part] ++ mid ++ [last])%list with (part :: mid ++ [last])%list.
    rewrite Hjoin. cbn [bind fst snd].
    rewrite slice_inside, slice_to_marker.
    destruct (recur inner); cbn [bind]; try reflexivity.
    now rewrite append_assoc_string.
Qed.


(** ** The bounds of the model are never reached *)

Local Close Scope Z_scope.

Lemma weight_app (l : list string) (x : string) :
  weight (l ++ [x]) = weight l + S (String.length x).
Proof. induction l as [|y l IH]; simpl; lia. Qed.

Lemma length_join_weight (l : list string) :
  String.length (Py.join comma l) = pred (weight l).
Proof.
  induction l as [|x l IH]; [reflexivity|].
  destruct l as [|y l]; [simpl; lia|].
  change (Py.join comma (x :: y :: l))
    with (x ++ String comma_c (Py.join comma (y :: l))).
  rewrite length_append.
  change (String.length (String comma_c (Py.join comma (y :: l))))
    with (S (String.length (Py.join comma (y :: l)))).
  rewrite IH. simpl. lia.
Qed.

Ltac reader_cases H :=
  cbv beta iota delta
    [Csv.parse_process_char Csv.start_field Csv.in_field Csv.parse_add_char
     Csv.end_of_line Csv.parse_save_field Csv.set_state bind
     Csv.state Csv.fields Csv.field] in H;
  repeat match type of H with
         | context [if ?b then _ else _] => destruct b
         end;
  try discriminate H;
  injection H as <-.

Ltac within_done :=
  unfold within, kept; cbn [Csv.state Csv.fields Csv.field owed credit];
  rewrite ?weight_app, ?length_append; cbn [String.length chr];
  repeat split; try lia; try discriminate;
  try (intros [?|?]; try discriminate; auto).

Lemma process_char_within (r r' : Csv.Reader) (c : ascii) (n : nat) :
  Csv.parse_process_char r (Csv.Chr c) = Ok r' ->
  within r n -> within r' (S n) /\ Csv.state r' <> Csv.START_RECORD.
Proof.
  destruct r as [st fs f]. unfold within, kept.
  cbn [Csv.state Csv.fields Csv.field]. intros H [W1 W2].
  destruct st; cbn [owed credit] in W1; reader_cases H; within_done.
Qed.

Lemma process_eol_within (r r' : Csv.Reader) (n : nat) :
  Csv.parse_process_char r Csv.EOL = Ok r' ->
  within r n ->
  (Csv.state r' = Csv.START_RECORD -> weight (Csv.fields r') <= S n) /\
  (Csv.state r' <> Csv.START_RECORD -> within r' n).
Proof.
  destruct r as [st fs f]. unfold within, kept.
  cbn [Csv.state Csv.fields Csv.field]. intros H [W1 W2].
  destruct st; cbn [owed credit] in W1; reader_cases H;
    cbn [Csv.state Csv.fields Csv.field];
    (split; [intros E; try discriminate E; rewrite ?weight_app; lia
            |intros E; try (exfalso; apply E; reflexivity); within_done]).
Qed.

Lemma process_line_within (line : string) (r r' : Csv.Reader) (n : nat) :
  Csv.process_line r line = Ok r' ->
  within r n ->
  (Csv.state r' = Csv.START_RECORD ->
   weight (Csv.fields r') <= S (n + String.length line)) /\
  (Csv.state r' <> Csv.START_RECORD -> within r' (n + String.length line)).
Proof.
  revert r n; induction line as [|c line IH]; intros r n H W.
  - simpl in H. rewrite Nat.add_0_r. now apply process_eol_within with r.
  - simpl in H.
    destruct (Csv.parse_process_char r (Csv.Chr c)) as [r1| |] eqn:E;
      try discriminate H.
    cbn [bind] in H.
    destruct (process_char_within _ _ _ _ E W) as [W1 _].
    simpl String.length. rewrite Nat.add_succ_r.
    exact (IH r1 (S n) H W1).
Qed.

Lemma rows_first_weight (lines : list string) (r : Csv.Reader) (n : nat)
    (row : list string) (more : list (list string)) :
  Csv.rows r lines = Ok (row :: more) ->
  within r n ->
  weight row <= S (n + list_sum (map String.length lines)).
Proof.
  revert r n; induction lines as [|line rest IH]; intros r n H [W1 W2].
  - simpl in H.
    destruct (String.eqb (Csv.field r) EmptyString) eqn:Ef.
    + destruct (Csv.state r) eqn:Es; simpl in H; try discriminate H.
      injection H as <- _. cbn [Csv.parse_save_field Csv.fields].
      rewrite weight_app. unfold kept in W1. simpl in W1. simpl. lia.
    + apply String.eqb_neq in Ef. simpl in H. injection H as <- _.
      cbn [Csv.parse_save_field Csv.fields]. rewrite weight_app.
      unfold kept in W1.
      destruct (Csv.state r) eqn:Es; cbn [owed credit] in W1;
        try (simpl; lia).
      exfalso. apply Ef, W2. now left.
  - simpl in H.
    destruct (Csv.process_line r line) as [r1| |] eqn:E; try discriminate H.
    cbn [bind] in H.
    destruct (process_line_within _ _ _ _ E (conj W1 W2)) as [D1 D2].
    simpl map. simpl list_sum.
    destruct (Csv.state r1) eqn:Es;
      try (specialize (D2 ltac:(discriminate));
           apply (IH _ _ H) in D2; lia).
    destruct (Csv.rows Csv.parse_reset rest); try discriminate H.
    cbn [bind] in H. injection H as <- _.
    specialize (D1 eq_refl). lia.
Qed.

Lemma readlines_length (s : string) :
  list_sum (map String.length (Csv.readlines s)) = String.length s.
Proof.
  induction s as [|c s IH]; [reflexivity|].
  simpl. destruct (Ascii.eqb c nl_c).
  - simpl. now rewrite IH.
  - destruct (Csv.readlines s) as [|l ls]; simpl in *; lia.
Qed.

(** The rough parts, joined with commas, are no longer than the input. *)
Lemma rough_parts_length (value : string) (parts : list string) :
  rough_parts value = Ok parts ->
  (weight parts <= S (String.length value))%nat.
Proof.
  unfold rough_parts, Csv.reader.
  destruct (Csv.rows Csv.parse_reset (Csv.readlines value))
    as [[|row more]|[]|] eqn:E; try discriminate.
  simpl. intros H. injection H as <-.
  apply rows_first_weight with (n := 0%nat) in E.
  - now rewrite readlines_length in E.
  - split; [simpl; lia|reflexivity].
Qed.

Lemma weight_append (a b : list string) :
  weight (a ++ b) = (weight a + weight b)%nat.
Proof. induction a as [|x a IH]; simpl; lia. Qed.

Lemma substring_length_le (s : string) (n m : nat) :
  (String.length (substring n m s) <= m)%nat.
Proof.
  revert n m; induction s as [|c s IH]; intros [|n] [|m]; simpl;
    try lia.
  - specialize (IH 0%nat m). lia.
  - apply IH.
  - apply IH.
Qed.

(** The inside of a chunk is shorter than the chunk. *)
Lemma slice_inside_shorter (chunk : string) (lo : Z) :
  chunk <> EmptyString ->
  (String.length (Py.slice chunk lo (-1)) < String.length chunk)%nat.
Proof.
  intros Hne. unfold Py.slice.
  eapply Nat.le_lt_trans; [apply substring_length_le|].
  unfold Py.slice_bound, Py.len.
  assert (0 < String.length chunk)%nat by (destruct chunk; simpl; [congruence|lia]).
  replace (-1 <? 0)%Z with true by reflexivity.
  destruct (lo <? 0)%Z; lia.
Qed.

Lemma is_list_marker (value part : string) (q : option string) :
  is_list value part q = true -> part <> EmptyString.
Proof.
  intros H ->. unfold is_list in H. simpl in H. discriminate.
Qed.

(** What [_eat_items] returns: the chunks of the parts it took, joined, and
    the parts it left. *)
Lemma eat_loop_taken (value : string) (iter_parts chunks : list string)
    (end_char replace_char chunk : string) (rest : list string) :
  eat_loop value iter_parts chunks end_char replace_char = Ok (chunk, rest) ->
  exists taken,
    iter_parts = (taken ++ rest)%list /\ taken <> [] /\
    chunk = Py.join comma
              (chunks ++ map (Py.replace_with_empty replace_char) taken)%list.
Proof.
  revert chunks; induction iter_parts as [|p ps IH]; intros chunks; simpl.
  - discriminate.
  - destruct (Py.endswith p end_char).
    + intros H. injection H as <- <-. exists [p]. repeat split. discriminate.
    + intros H. apply IH in H as [taken [-> [_ ->]]].
      exists (p :: taken). repeat split; [discriminate|].
      now rewrite <- app_assoc.
Qed.

Section Fuel.

Variable recur : string -> outcome (list string).
Variable value : string.

(** With a bound of at least the number of parts, the loop runs out of fuel
    only if a recursive call does. *)
Lemma for_parts_fuel (k : nat) (iter_parts new_parts : list string) :
  (List.length iter_parts <= k)%nat ->
  (forall inner, (String.length inner + 2 <= weight iter_parts)%nat ->
                 recur inner <> OutOfFuel) ->
  for_parts recur value k iter_parts new_parts <> OutOfFuel.
Proof.
  revert iter_parts new_parts.
  induction k as [|k IH]; intros [|part rest] new_parts Hk Hrec;
    try (simpl; discriminate); [simpl in Hk; lia|].
  assert (Hrest : forall rest' np,
            (List.length rest' <= List.length rest)%nat ->
            (weight rest' <= weight rest)%nat ->
            for_parts recur value k rest' np <> OutOfFuel).
  { intros rest' np Hl Hw. apply IH; [simpl in Hk; lia|].
    intros inner Hi. apply Hrec. simpl. lia. }
  destruct (is_list value part (_find_quote_char_in_part part)) eqn:Hlist.
  - rewrite for_parts_list_step by exact Hlist.
    pose proof (is_list_marker _ _ _ Hlist) as Hne.
    destruct (Py.contains rbrack part).
    + cbn [bind fst snd].
      destruct (recur (Py.slice part (Py.find list_marker part + 2) (-1)))
        eqn:Er; cbn [bind]; try discriminate.
      * apply Hrest; lia.
      * exfalso. revert Er. apply Hrec.
        pose proof (slice_inside_shorter part
                      (Py.find list_marker part + 2) Hne).
        simpl. lia.
    + unfold _eat_items.
      destruct (eat_loop value rest [Py.replace_with_empty EmptyString part]
                  rbrack EmptyString) as [[chunk rest']| |] eqn:Ee;
        cbn [bind fst snd]; try discriminate.
      * pose proof (eat_loop_rest _ _ _ _ _ _ _ Ee) as Hlen.
        apply eat_loop_taken in Ee as [taken [-> [_ ->]]].
        rewrite map_replace_nothing.
        change ([Py.replace_with_empty EmptyString part] ++ taken)%list
          with (part :: taken).
        destruct (recur (Py.slice (Py.join comma (part :: taken))
                           (Py.find list_marker part + 2) (-1)))
          eqn:Er; cbn [bind]; try discriminate.
        -- apply Hrest; [lia|rewrite weight_append; lia].
        -- exfalso. revert Er. apply Hrec.
           assert (Hc : Py.join comma (part :: taken) <> EmptyString).
           { destruct taken; simpl; [exact Hne|].
             destruct part; [congruence|discriminate]. }
           pose proof (slice_inside_shorter _
                         (Py.find list_marker part + 2) Hc) as Hs.
           rewrite length_join_weight in Hs.
           change (weight (part :: taken ++ rest'))
             with (weight ((part :: taken) ++ rest')).
           rewrite weight_append. lia.
      * now apply eat_loop_fuel in Ee.
  - simpl. rewrite Hlist.
    destruct (_find_quote_char_in_part part) as [q|]; [|apply Hrest; lia].
    destruct (Py.count q part =? 2)%Z; [apply Hrest; lia|].
    unfold _eat_items.
    destruct (eat_loop value rest [Py.replace_with_empty q part] q q)
      as [[chunk rest']| |] eqn:Ee; cbn [bind fst snd]; try discriminate.
    + pose proof (eat_loop_rest _ _ _ _ _ _ _ Ee) as Hlen.
      apply eat_loop_taken in Ee as [taken [-> _]].
      apply Hrest; [lia|rewrite weight_append; lia].
    + now apply eat_loop_fuel in Ee.
Qed.

End Fuel.

Lemma process_char_fuel (r : Csv.Reader) (c : Csv.input) :
  Csv.parse_process_char r c <> OutOfFuel.
Proof.
  destruct r as [st fs f], c as [c|]; intros H;
    destruct st; reader_cases H.
Qed.

Lemma process_line_fuel (line : string) (r : Csv.Reader) :
  Csv.process_line r line <> OutOfFuel.
Proof.
  revert r; induction line as [|c line IH]; intros r; simpl.
  - apply process_char_fuel.
  - destruct (Csv.parse_process_char r (Csv.Chr c)) eqn:E; cbn [bind].
    + apply IH.
    + discriminate.
    + now apply process_char_fuel in E.
Qed.

Lemma rows_fuel (lines : list string) (r : Csv.Reader) :
  Csv.rows r lines <> OutOfFuel.
Proof.
  revert r; induction lines as [|line rest IH]; intros r; simpl.
  - destruct (_ || _); discriminate.
  - destruct (Csv.process_line r line) as [r1| |] eqn:E; cbn [bind].
    + destruct (Csv.state r1); try apply IH.
      destruct (Csv.rows Csv.parse_reset rest) eqn:E2; cbn [bind];
        try discriminate.
      now apply IH in E2.
    + discriminate.
    + now apply process_line_fuel in E.
Qed.

Lemma rough_parts_fuel (value : string) : rough_parts value <> OutOfFuel.
Proof.
  unfold rough_parts, Csv.reader.
  destruct (Csv.rows Csv.parse_reset (Csv.readlines value))
    as [[|row more]|[]|] eqn:E; try discriminate.
  now apply rows_fuel in E.
Qed.

(** A bound above the length of the value is enough for the recursion. *)
Lemma split_with_quotes_fuel_enough (n : nat) (value : string) :
  (String.length value <= n)%nat ->
  _split_with_quotes_fuel (S n) value <> OutOfFuel.
Proof.
  revert value; induction n as [|n IH]; intros value Hn;
    cbn [_split_with_quotes_fuel];
    destruct (rough_parts value) as [parts| |] eqn:E; cbn [bind];
    try discriminate; try (now apply rough_parts_fuel in E);
    apply rough_parts_length in E;
    (apply for_parts_fuel; [lia|]); intros inner Hi.
  - lia.
  - apply IH. lia.
Qed.

(** More fuel does not change a result. *)
Lemma for_parts_more_fuel (recur recur' : string -> outcome (list string))
    (value : string) (k k' : nat) (iter_parts new_parts : list string) :
  (forall inner, recur inner <> OutOfFuel -> recur' inner = recur inner) ->
  (k <= k')%nat ->
  for_parts recur value k iter_parts new_parts <> OutOfFuel ->
  for_parts recur' value k' iter_parts new_parts
    = for_parts recur value k iter_parts new_parts.
Proof.
  intros Hrec. revert k' iter_parts new_parts.
  induction k as [|k IH]; intros k' [|part rest] new_parts Hk H;
    try (destruct k'; reflexivity); try (now destruct H);
    destruct k' as [|k']; [lia|].
  assert (Hk' : (k <= k')%nat) by lia.
  cbn [for_parts] in *.
  destruct (is_list value part (_find_quote_char_in_part part)).
  - destruct (if Py.contains rbrack part then Ok (part, rest)
              else _eat_items value rest part rbrack EmptyString)
      as [[chunk rest']| |]; cbn [bind fst snd] in *; try reflexivity.
    destruct (recur (Py.slice chunk (Py.find list_marker part + 2) (-1)))
      eqn:Er; cbn [bind] in *; try (now destruct H).
    + rewrite Hrec by (rewrite Er; discriminate). rewrite Er. cbn [bind].
      now apply IH.
    + rewrite Hrec by (rewrite Er; discriminate). now rewrite Er.
  - destruct (_find_quote_char_in_part part) as [q|]; [|now apply IH].
    destruct (Py.count q part =? 2)%Z; [now apply IH|].
    destruct (_eat_items value rest part q q) as [[chunk rest']| |];
      cbn [bind fst snd] in *; try reflexivity.
    now apply IH.
Qed.

Lemma split_with_quotes_more_fuel (n m : nat) (value : string) :
  (n <= m)%nat ->
  _split_with_quotes_fuel n value <> OutOfFuel ->
  _split_with_quotes_fuel m value = _split_with_quotes_fuel n value.
Proof.
  revert m value; induction n as [|n IH]; intros m value Hm H;
    [now destruct H|].
  destruct m as [|m]; [lia|].
  cbn [_split_with_quotes_fuel] in *.
  destruct (rough_parts value) as [parts| |]; cbn [bind] in *;
    try reflexivity.
  apply for_parts_more_fuel; [|lia|exact H].
  intros inner Hi. apply IH; [lia|exact Hi].
Qed.

(** [split_on_commas] always returns or raises: the bounds of the model
    never run out. *)
Theorem split_on_commas_total (value : string) :
  split_on_commas value <> OutOfFuel.
Proof.
  unfold split_on_commas.
  destruct (negb _); [discriminate|].
  destruct (negb _).
  - unfold Csv.reader.
    destruct (Csv.rows Csv.parse_reset (Csv.readlines value))
      as [[|row more]| |] eqn:E; cbn [bind first_row]; try discriminate.
    now apply rows_fuel in E.
  - apply split_with_quotes_fuel_enough. lia.
Qed.

Local Open Scope Z_scope.

(** ** The inside of a list *)

(** Enough fuel for the inside of a list gives what [_split_with_quotes]
    gives on it. *)
Lemma split_with_quotes_inside (n : nat) (inner : string) :
  (String.length inner < n)%nat ->
  _split_with_quotes_fuel n inner = _split_with_quotes inner.
Proof.
  intros Hn. unfold _split_with_quotes.
  apply split_with_quotes_more_fuel; [lia|].
  apply split_with_quotes_fuel_enough. lia.
Qed.

(** ** Parts that open a quote *)

(** The quote character of a part is one of the two quote characters. *)
Lemma find_quote_char_cases (part q : string) :
  _find_quote_char_in_part part = Some q -> q = dquote \/ q = squote.
Proof.
  unfold _find_quote_char_in_part.
  repeat match goal with
         | |- context [if ?b then _ else _] => destruct b
         end; intros H; try discriminate H; injection H as <-; auto.
Qed.

(** The step of the loop on a part that opens a quote closed by a later
    part. *)
Lemma for_parts_quoted_joined (recur : string -> outcome (list string))
    (value : string) (k : nat) (part q : string) (mid : list string)
    (last : string) (rest new_parts : list string) :
  _find_quote_char_in_part part = Some q ->
  is_list value part (Some q) = false ->
  Py.count q part <> 2 ->
  (forall p, In p mid -> Py.endswith p q = false) ->
  Py.endswith last q = true ->
  for_parts recur value (S k) (part :: mid ++ last :: rest) new_parts
  = for_parts recur value k rest
      (new_parts ++
       [Py.join comma (map (Py.replace_with_empty q) (part :: mid ++ [last]))]).
Proof.
  intros Hq Hlist Hcount Hmid Hlast.
  cbn [for_parts]. rewrite Hq, Hlist.
  apply Z.eqb_neq in Hcount. rewrite Hcount.
  unfold _eat_items. now rewrite eat_loop_found by assumption.
Qed.

(** ** Unclosed quotes *)

(** A part whose quote character does not occur exactly twice, with no
    later part that ends with the quote character, raises
    [ValueError(value)]. *)
Lemma unclosed_quote_raises (value : string) (pre : list string)
    (part : string) (rest : list string) (q : string) :
  rough_parts value = Ok (pre ++ part :: rest)%list ->
  (forall p, In p pre ->
     _find_quote_char_in_part p = None /\ Py.find list_marker p = -1) ->
  Py.contains q value = true ->
  _find_quote_char_in_part part = Some q ->
  is_list value part (Some q) = false ->
  Py.count q part <> 2 ->
  (forall p, In p rest -> Py.endswith p q = false) ->
  split_on_commas value = Raise (ValueError value).
Proof.
  intros Hrough Hpre Hin Hq Hlist Hcount Hrest.
  rewrite split_on_commas_quoting.
  - rewrite (split_with_quotes_unfold _ _ Hrough).
    rewrite length_app.
    rewrite for_parts_keep_all by exact Hpre.
    simpl. rewrite Hq, Hlist.
    apply Z.eqb_neq in Hcount. rewrite Hcount. unfold _eat_items.
    now rewrite eat_loop_exhausted by exact Hrest.
  - destruct (find_quote_char_cases _ _ Hq) as [-> | ->];
      apply contains_chr_true in Hin; auto.
Qed.

(** C4: the failing input.  A double quote that opens a field is consumed
    by the [csv] reader, which ends the unterminated quoted field at the end
    of the input; the loop over the parts sees no quote character and
    nothing is raised.  The same input with a single quote, and a double
    quote opened inside a field, do raise. *)
Theorem unclosed_leading_double_quote_returns :
  rough_parts ("a," ++ dquote ++ "b,c") = Ok ["a"; "b,c"] /\
  split_on_commas ("a," ++ dquote ++ "b,c") = Ok ["a"; "b,c"] /\
  split_on_commas "a,'b,c" = Raise (ValueError "a,'b,c") /\
  split_on_commas ("a,k=" ++ dquote ++ "b,c")
    = Raise (ValueError ("a,k=" ++ dquote ++ "b,c")).
Proof. repeat split; vm_compute; reflexivity. Qed.

(** ** Splitting the output again *)

(** C6 (amended): when a split succeeds with a non-empty output whose
    tokens hold no comma, and the comma join of the output holds no quote,
    no bracket and no backslash, splitting the join gives the output
    again. *)
Theorem resplit_of_plain_output (s : string) (ts : list string) :
  split_on_commas s = Ok ts ->
  ts <> [] ->
  (forall t, In t ts -> ~ occurs comma_c t) ->
  plain (Py.join comma ts) ->
  split_on_commas (Py.join comma ts) = Ok ts.
Proof.
  intros _ Hne Hfree Hplain.
  rewrite split_on_commas_fast by exact Hplain.
  unfold comma. now rewrite split_join.
Qed.

Lemma resplit_of_plain_output_witness :
  split_on_commas (Py.join comma ["a"; "b"; "c"]) = Ok ["a"; "b"; "c"].
Proof.
  apply (resplit_of_plain_output "a,b,c").
  - vm_compute; reflexivity.
  - discriminate.
  - intros t [<-|[<-|[<-|[]]]]; unfold occurs; simpl;
      intros H; repeat (destruct H as [H|H]; [discriminate H|]); exact H.
  - exact plain_abc.
Defined.

(** C6 as stated fails: an escaped comma stays inside a token of the
    output, and splitting the join cuts the token in two. *)
Lemma resplit_cuts_escaped_comma :
  split_on_commas ("a" ++ bslash ++ ",b") = Ok ["a,b"] /\
  Py.join comma ["a,b"] = "a,b" /\
  any_in [dquote; squote; lbrack; rbrack] (Py.join comma ["a,b"]) = false /\
  split_on_commas (Py.join comma ["a,b"]) = Ok ["a"; "b"] /\
  split_on_commas (Py.join comma ["a,b"]) <> Ok ["a,b"].
Proof.
  repeat split; try (vm_compute; reflexivity).
  vm_compute. discriminate.
Qed.

(** ** The [export] command *)

(** C10: the environment comes before the config file.  When the
    environment has the variable, its value is returned and the only call
    made on the session is the lookup in the environment; [NOT_SET] is
    returned exactly when neither the environment nor the config file has
    the variable. *)
Theorem lookup_config_env_first
    (session_get_config_variable : string -> ExportCommand.method -> option string)
    (name : string) (w : ExportCommand.World) :
  (forall v,
     session_get_config_variable name ExportCommand.env = Some v ->
     ExportCommand._lookup_config session_get_config_variable name w
       = (ExportCommand.Str v,
          ExportCommand.mkWorld
            (ExportCommand.calls w ++
             [ExportCommand.get_config_variable_call name ExportCommand.env])
            (ExportCommand.stdout w))) /\
  (fst (ExportCommand._lookup_config session_get_config_variable name w)
     = ExportCommand.NOT_SET <->
   session_get_config_variable name ExportCommand.env = None /\
   session_get_config_variable name ExportCommand.config = None).
Proof.
  unfold ExportCommand._lookup_config, ExportCommand.mbind,
    ExportCommand.get_config_variable, ExportCommand.ret.
  split.
  - intros v Hv. now rewrite Hv.
  - destruct (session_get_config_variable name ExportCommand.env) as [v|];
      simpl.
    + split; [discriminate|intros [H _]; discriminate].
    + destruct (session_get_config_variable name ExportCommand.config) as [v|];
        simpl.
      * split; [discriminate|intros [_ H]; discriminate].
      * tauto.
Qed.

Lemma lookup_config_env_first_witness :
  ExportCommand._lookup_config
    (fun _ m => match m with
                | ExportCommand.env => Some "us-west-2"
                | ExportCommand.config => Some "eu-west-1"
                end)
    "region" ExportCommand.empty_world
  = (ExportCommand.Str "us-west-2",
     ExportCommand.mkWorld
       [ExportCommand.get_config_variable_call "region" ExportCommand.env] []).
Proof.
  apply (proj1 (lookup_config_env_first _ "region" ExportCommand.empty_world)).
  reflexivity.
Defined.

(** What [_run_main] prints: the two key lines, whatever the keys are, and
    the region line when the region is set. *)
Lemma run_main_stdout (NOT_SET_text : string)
    (gcv : string -> ExportCommand.method -> option string)
    (creds : option ExportCommand.Credentials) (w : ExportCommand.World) :
  ExportCommand.stdout (snd (ExportCommand._run_main NOT_SET_text gcv creds w))
  = (ExportCommand.stdout w ++
     [("export AWS_ACCESS_KEY_ID=" ++
        ExportCommand.format NOT_SET_text
          (fst (fst (ExportCommand._lookup_credentials gcv creds w))))%string;
      ("export AWS_SECRET_ACCESS_KEY=" ++
        ExportCommand.format NOT_SET_text
          (snd (fst (ExportCommand._lookup_credentials gcv creds w))))%string] ++
     match fst (ExportCommand._lookup_config gcv "region" w) with
     | ExportCommand.NOT_SET => []
     | ExportCommand.Str r => [("export AWS_DEFAULT_REGION=" ++ r)%string]
     end)%list.
Proof.
  unfold ExportCommand._run_main, ExportCommand._lookup_credentials,
    ExportCommand._lookup_config, ExportCommand.mbind,
    ExportCommand.get_config_variable, ExportCommand.get_credentials,
    ExportCommand.ret, ExportCommand.print.
  destruct w as [cs out]. cbn [ExportCommand.calls ExportCommand.stdout].
  destruct (gcv "access_key" ExportCommand.env);
    destruct (gcv "access_key" ExportCommand.config);
    destruct (gcv "secret_key" ExportCommand.env);
    destruct (gcv "secret_key" ExportCommand.config);
    destruct creds;
    destruct (gcv "region" ExportCommand.env);
    destruct (gcv "region" ExportCommand.config);
    cbn [fst snd ExportCommand.calls ExportCommand.stdout ExportCommand.format];
    rewrite <- ?app_assoc; reflexivity.
Qed.

(** C8: the failing input.  With no access key in the environment or the
    config file and no credentials in the session, the command writes the
    two key lines with the text of [NOT_SET] as the value; only the region
    line is left out. *)
Theorem run_main_prints_unset_keys (NOT_SET_text : string) :
  ExportCommand.stdout
    (snd (ExportCommand._run_main NOT_SET_text (fun _ _ => None) None
            ExportCommand.empty_world))
  = ["export AWS_ACCESS_KEY_ID=" ++ NOT_SET_text;
     "export AWS_SECRET_ACCESS_KEY=" ++ NOT_SET_text].
Proof. reflexivity. Qed.

(** * Further properties *)

(** ** Plain input and the bounds of the recursion *)

(** X1: on an input with no quote, bracket or backslash the output is a
    non-empty list of tokens without comma whose comma join is the input
    again. *)
Theorem plain_split_round_trip (s : string) :
  plain s ->
  exists ts,
    split_on_commas s = Ok ts /\ Py.join comma ts = s /\ ts <> [] /\
    forall t, In t ts -> ~ occurs comma_c t.
Proof.
  intros H. exists (Py.split comma_c s).
  split; [now apply split_on_commas_fast|].
  split; [apply join_split|]. split; [apply split_not_nil|].
  intros t. apply split_tokens_free.
Qed.

Lemma plain_split_round_trip_witness :
  exists ts,
    split_on_commas "a,b,c" = Ok ts /\ Py.join comma ts = "a,b,c" /\
    ts <> [] /\ forall t, In t ts -> ~ occurs comma_c t.
Proof. exact (plain_split_round_trip "a,b,c" plain_abc). Defined.

(** X2: the recursion of [_split_with_quotes] into bracketed lists ends on
    every input.  Every recursive call is on a string shorter than the
    value of the call that makes it, so the nesting is at most the length of
    the input plus one, and any larger bound gives the same outcome. *)
Theorem split_with_quotes_terminates (value : string) :
  _split_with_quotes value <> OutOfFuel /\
  forall n, (String.length value < n)%nat ->
            _split_with_quotes_fuel n value = _split_with_quotes value.
Proof.
  split.
  - apply split_with_quotes_fuel_enough. lia.
  - intros n Hn. now apply split_with_quotes_inside.
Qed.

Lemma split_with_quotes_terminates_witness :
  _split_with_quotes_fuel 40 "x=[y=[1,2],z]"
  = _split_with_quotes "x=[y=[1,2],z]".
Proof.
  apply (proj2 (split_with_quotes_terminates "x=[y=[1,2],z]") 40%nat).
  vm_compute. lia.
Defined.

(** ** Escaped commas *)

Lemma append_nil (s : string) : s ++ EmptyString = s.
Proof. induction s as [|c s IH]; simpl; [reflexivity|now rewrite IH]. Qed.

Lemma append_chr (f : string) (c : ascii) (t : string) :
  (f ++ chr c) ++ t = f ++ String c t.
Proof. induction f as [|x f IH]; simpl; [reflexivity|now rewrite IH]. Qed.

Lemma add_char_ok (st : Csv.ParserState) (fs : list string) (f : string)
    (c : ascii) :
  Py.len f < Csv.field_limit ->
  Csv.parse_add_char (Csv.mkReader st fs f) c
  = Ok (Csv.mkReader st fs (f ++ chr c)).
Proof.
  intros H. unfold Csv.parse_add_char. cbn [Csv.field Csv.state Csv.fields].
  apply Z.leb_gt in H. now rewrite H.
Qed.

(** An unquoted character other than the delimiter, the escape character
    and a line break is added to the field. *)
Lemma step_plain (st : Csv.ParserState) (fs : list string) (f : string)
    (c : ascii) :
  reading st ->
  Ascii.eqb c dquote_c = false -> Ascii.eqb c bslash_c = false ->
  Ascii.eqb c comma_c = false ->
  Ascii.eqb c nl_c = false -> Ascii.eqb c cr_c = false ->
  Py.len f < Csv.field_limit ->
  Csv.parse_process_char (Csv.mkReader st fs f) (Csv.Chr c)
  = Ok (Csv.mkReader Csv.IN_FIELD fs (f ++ chr c)).
Proof.
  intros Hst Hd Hb Hc Hn Hr Hlim.
  destruct Hst as [-> | [-> | ->]];
    unfold Csv.parse_process_char; cbn [Csv.state];
    unfold Csv.start_field, Csv.in_field, Csv.is_newline, Csv.set_state;
    cbn [Csv.state Csv.fields Csv.field];
    rewrite ?Hn, ?Hr, ?Hd, ?Hb, ?Hc; cbn [orb];
    rewrite add_char_ok by exact Hlim; reflexivity.
Qed.

(** The escape character starts an escape. *)
Lemma step_escape (st : Csv.ParserState) (fs : list string) (f : string) :
  reading st ->
  Csv.parse_process_char (Csv.mkReader st fs f) (Csv.Chr bslash_c)
  = Ok (Csv.mkReader Csv.ESCAPED_CHAR fs f).
Proof. intros [-> | [-> | ->]]; reflexivity. Qed.

(** An escaped character other than a line break is added to the field. *)
Lemma step_escaped (fs : list string) (f : string) (c : ascii) :
  Ascii.eqb c nl_c = false -> Ascii.eqb c cr_c = false ->
  Py.len f < Csv.field_limit ->
  Csv.parse_process_char (Csv.mkReader Csv.ESCAPED_CHAR fs f) (Csv.Chr c)
  = Ok (Csv.mkReader Csv.IN_FIELD fs (f ++ chr c)).
Proof.
  intros Hn Hr Hlim. unfold Csv.parse_process_char. cbn [Csv.state].
  rewrite add_char_ok by exact Hlim. unfold Csv.is_newline.
  now rewrite Hn, Hr.
Qed.

(** The delimiter ends the field. *)
Lemma step_comma (st : Csv.ParserState) (fs : list string) (f : string) :
  reading st ->
  Csv.parse_process_char (Csv.mkReader st fs f) (Csv.Chr comma_c)
  = Ok (Csv.mkReader Csv.START_FIELD (fs ++ [f]) EmptyString).
Proof. intros [-> | [-> | ->]]; reflexivity. Qed.

(** The end of the line ends the field and the record. *)
Lemma step_eol (st : Csv.ParserState) (fs : list string) (f : string) :
  st = Csv.START_FIELD \/ st = Csv.IN_FIELD ->
  Csv.parse_process_char (Csv.mkReader st fs f) Csv.EOL
  = Ok (Csv.mkReader Csv.START_RECORD (fs ++ [f]) EmptyString).
Proof. intros [-> | ->]; reflexivity. Qed.

Lemma process_line_cons (r : Csv.Reader) (c : ascii) (line : string) :
  Csv.process_line r (String c line)
  = (r' <- Csv.parse_process_char r (Csv.Chr c) ;; Csv.process_line r' line).
Proof. reflexivity. Qed.

(** Feeding an escaped token to a reader that is between fields or inside
    an unquoted field adds the token to the field under way. *)
Lemma process_escaped_token (t : string) :
  forall (st : Csv.ParserState) (fs : list string) (f line : string),
    reading st ->
    ~ occurs dquote_c t -> ~ occurs nl_c t -> ~ occurs cr_c t ->
    Py.len f + Py.len t <= Csv.field_limit ->
    Csv.process_line (Csv.mkReader st fs f) (escape t ++ line)
    = Csv.process_line
        (Csv.mkReader (match t with EmptyString => st | _ => Csv.IN_FIELD end)
                      fs (f ++ t)) line.
Proof.
  induction t as [|c t IH]; intros st fs f line Hst Hd Hn Hr Hlen.
  - simpl. now rewrite append_nil.
  - unfold occurs in Hd, Hn, Hr. simpl in Hd, Hn, Hr.
    assert (Hcd : Ascii.eqb c dquote_c = false)
      by (apply Ascii.eqb_neq; intros ->; auto).
    assert (Hcn : Ascii.eqb c nl_c = false)
      by (apply Ascii.eqb_neq; intros ->; auto).
    assert (Hcr : Ascii.eqb c cr_c = false)
      by (apply Ascii.eqb_neq; intros ->; auto).
    assert (Hlim : Py.len f < Csv.field_limit).
    { unfold Py.len in *. simpl String.length in Hlen. lia. }
    assert (Hnext : Csv.process_line
                      (Csv.mkReader Csv.IN_FIELD fs (f ++ chr c))
                      (escape t ++ line)
                    = Csv.process_line
                        (Csv.mkReader Csv.IN_FIELD fs (f ++ String c t)) line).
    { rewrite IH; try tauto.
      - rewrite append_chr. now destruct t.
      - right; right; reflexivity.
      - unfold Py.len in *. rewrite length_append. simpl String.length in *.
        lia. }
    rewrite <- Hnext. clear Hnext IH.
    cbn [escape].
    destruct (Ascii.eqb c comma_c || Ascii.eqb c bslash_c) eqn:E.
    + change ((String bslash_c (String c (escape t))) ++ line)
        with (String bslash_c (String c (escape t ++ line))).
      rewrite process_line_cons, step_escape by exact Hst. cbn [bind].
      rewrite process_line_cons, step_escaped by assumption. reflexivity.
    + apply orb_false_elim in E as [Ec Eb].
      change ((String c (escape t)) ++ line)
        with (String c (escape t ++ line)).
      rewrite process_line_cons, step_plain by assumption. reflexivity.
Qed.

(** The line made of escaped tokens joined by commas gives the tokens as
    its fields. *)
Lemma process_escaped_line (ts : list string) :
  forall (st : Csv.ParserState) (fs : list string),
    ts <> [] ->
    st = Csv.START_FIELD \/
    (st = Csv.START_RECORD /\ Py.join comma (map escape ts) <> EmptyString) ->
    (forall t, In t ts -> csv_token t) ->
    Csv.process_line (Csv.mkReader st fs EmptyString)
                     (Py.join comma (map escape ts))
    = Ok (Csv.mkReader Csv.START_RECORD (fs ++ ts) EmptyString).
Proof.
  induction ts as [|t ts IH]; intros st fs Hne Hst Htok; [congruence|].
  destruct (Htok t) as (Hd & Hn & Hr & Hlen); [simpl; auto|].
  assert (Hreading : reading st)
    by (destruct Hst as [-> | [-> _]]; unfold reading; auto).
  destruct ts as [|t2 ts].
  - cbn [map Py.join].
    rewrite <- (append_nil (escape t)) at 1.
    rewrite process_escaped_token by (simpl; auto; unfold Py.len; simpl; lia).
    cbn [Csv.process_line append].
    destruct t as [|c t].
    + destruct Hst as [-> | [_ H]]; [reflexivity|]. now destruct H.
    + apply step_eol. now right.
  - change (Py.join comma (map escape (t :: t2 :: ts)))
      with (escape t ++ String comma_c (Py.join comma (map escape (t2 :: ts)))).
    rewrite process_escaped_token by (simpl; auto; unfold Py.len; simpl; lia).
    rewrite process_line_cons, step_comma
      by (destruct t; [exact Hreading|right; right; reflexivity]).
    cbn [bind append].
    rewrite IH; [|discriminate|now left|intros u Hu; apply Htok; simpl in *; tauto].
    now rewrite <- app_assoc.
Qed.

Lemma readlines_single (s : string) :
  ~ occurs nl_c s -> s <> EmptyString -> Csv.readlines s = [s].
Proof.
  unfold occurs. induction s as [|c s IH]; intros Hn Hne; [congruence|].
  simpl in *. destruct (Ascii.eqb c nl_c) eqn:E.
  - apply Ascii.eqb_eq in E. exfalso; auto.
  - destruct s as [|c' s]; [reflexivity|].
    rewrite IH; [reflexivity|auto|discriminate].
Qed.

Lemma occurs_join (c : ascii) (sep : string) (l : list string) :
  occurs c (Py.join sep l) <->
  (exists x, In x l /\ occurs c x) \/
  (occurs c sep /\ (2 <= List.length l)%nat).
Proof.
  induction l as [|x l IH].
  - simpl. unfold occurs at 1. simpl. split; [tauto|].
    intros [[x [[] _]] | [_ H]]. simpl in H. lia.
  - destruct l as [|y l].
    + simpl. split.
      * intros H. left. exists x. auto.
      * intros [[z [[<-|[]] H]] | [_ H]]; [exact H|simpl in H; lia].
    + change (Py.join sep (x :: y :: l))
        with (x ++ sep ++ Py.join sep (y :: l)).
      rewrite !occurs_append, IH. split.
      * intros [H | [H | [[z [Hz H]] | [H _]]]].
        -- left. exists x. simpl; auto.
        -- right. split; [exact H|simpl; lia].
        -- left. exists z. simpl in *; tauto.
        -- right. split; [exact H|simpl; lia].
      * intros [[z [[<-|Hz] H]] | [H _]].
        -- now left.
        -- right; right; left. exists z. auto.
        -- right; left. exact H.
Qed.

Lemma occurs_chr (c x : ascii) : occurs c (chr x) <-> c = x.
Proof. unfold occurs. simpl. split; [intros [H|[]]; auto|auto]. Qed.

Lemma occurs_escape (c : ascii) (t : string) :
  occurs c (escape t) <->
  occurs c t \/ (c = bslash_c /\ (occurs comma_c t \/ occurs bslash_c t)).
Proof.
  unfold occurs. induction t as [|x t IH]; simpl; [tauto|].
  destruct (Ascii.eqb x comma_c) eqn:Ec; simpl orb.
  - apply Ascii.eqb_eq in Ec. subst x. simpl. rewrite IH. intuition.
  - destruct (Ascii.eqb x bslash_c) eqn:Eb.
    + apply Ascii.eqb_eq in Eb. subst x. simpl. rewrite IH. intuition.
    + apply Ascii.eqb_neq in Ec, Eb. simpl. rewrite IH.
      intuition congruence.
Qed.

Lemma escape_plain (t : string) :
  ~ occurs comma_c t -> ~ occurs bslash_c t -> escape t = t.
Proof.
  unfold occurs. induction t as [|x t IH]; simpl; intros Hc Hb; [reflexivity|].
  destruct (Ascii.eqb x comma_c) eqn:Ec.
  - apply Ascii.eqb_eq in Ec. exfalso; auto.
  - destruct (Ascii.eqb x bslash_c) eqn:Eb.
    + apply Ascii.eqb_eq in Eb. exfalso; auto.
    + simpl. now rewrite IH by auto.
Qed.

Lemma map_escape_plain (ts : list string) :
  (forall t, In t ts -> ~ occurs comma_c t /\ ~ occurs bslash_c t) ->
  map escape ts = ts.
Proof.
  induction ts as [|t ts IH]; intros H; [reflexivity|].
  simpl. rewrite escape_plain by (apply H; simpl; auto).
  now rewrite IH by (intros u Hu; apply H; simpl; auto).
Qed.

(** The reader gives the tokens back from their escaped join. *)
Lemma reader_escaped (ts : list string) :
  ts <> [] ->
  (forall t, In t ts -> csv_token t) ->
  Py.join comma (map escape ts) <> EmptyString ->
  Csv.reader (Py.join comma (map escape ts)) = Ok [ts].
Proof.
  intros Hne Htok Hval. unfold Csv.reader.
  rewrite readlines_single; [|
    | exact Hval].
  - cbn [Csv.rows]. unfold Csv.parse_reset at 1.
    rewrite process_escaped_line;
      [reflexivity|exact Hne|right; split; [reflexivity|exact Hval]|exact Htok].
  - rewrite occurs_join. intros [[x [Hx H]] | [H _]].
    + apply in_map_iff in Hx as [t [<- Ht]].
      apply occurs_escape in H as [H | [H _]]; [|discriminate H].
      destruct (Htok t Ht) as (_ & Hn & _). auto.
    + apply occurs_chr in H. discriminate H.
Qed.

Lemma any_in_no_quote_or_bracket (value : string) :
  no_quote_or_bracket value ->
  any_in [dquote; squote; lbrack; rbrack] value = false.
Proof.
  intros (Hd & Hs & Hl & Hr). unfold any_in. simpl.
  apply contains_chr_false in Hd, Hs, Hl, Hr.
  unfold dquote, squote, lbrack, rbrack. now rewrite Hd, Hs, Hl, Hr.
Qed.

(** The branch of [split_on_commas] for an input with a backslash and no
    quote or bracket. *)
Lemma split_on_commas_escaping (value : string) :
  no_quote_or_bracket value -> occurs bslash_c value ->
  split_on_commas value = (rs <- Csv.reader value ;; first_row rs).
Proof.
  intros Hq Hb. unfold split_on_commas.
  rewrite (any_in_no_quote_or_bracket _ Hq).
  apply contains_chr_true in Hb. unfold any_in. simpl.
  unfold bslash. rewrite Hb. now rewrite orb_true_r.
Qed.

(** X3: tokens escaped with a backslash before every comma and backslash,
    joined with commas, are split into the tokens again, whatever commas and
    backslashes they hold, when they hold no quote, bracket or line break
    and fit in a field of the [csv] reader. *)
Theorem split_of_escaped_join (ts : list string) :
  ts <> [] ->
  (forall t, In t ts -> no_quote_or_bracket t /\ csv_token t) ->
  split_on_commas (Py.join comma (map escape ts)) = Ok ts.
Proof.
  intros Hne Htok.
  set (value := Py.join comma (map escape ts)).
  assert (Hq : no_quote_or_bracket value).
  { unfold no_quote_or_bracket, value.
    repeat split; rewrite occurs_join;
      (intros [[x [Hx H]] | [H _]];
       [ apply in_map_iff in Hx as [t [<- Ht]];
         apply occurs_escape in H as [H | [H _]]; [|discriminate H];
         destruct (Htok t Ht) as ((Hd & Hs & Hl & Hr) & _); auto
       | apply occurs_chr in H; discriminate H ]). }
  destruct (in_dec ascii_dec bslash_c (list_ascii_of_string value)) as [Hb|Hb].
  - rewrite split_on_commas_escaping by assumption.
    unfold value. rewrite reader_escaped; [reflexivity|exact Hne| |].
    + intros t Ht. now apply Htok.
    + intros E. fold value in E. rewrite E in Hb. exact Hb.
  - assert (Hplain : forall t, In t ts ->
              ~ occurs comma_c t /\ ~ occurs bslash_c t).
    { intros t Ht.
      assert (H : ~ occurs bslash_c (escape t)).
      { intros H. apply Hb. unfold value. apply occurs_join. left.
        exists (escape t). split; [now apply in_map|exact H]. }
      rewrite occurs_escape in H. tauto. }
    rewrite split_on_commas_fast by (split; assumption).
    unfold value. rewrite map_escape_plain by exact Hplain.
    unfold comma. rewrite split_join; [reflexivity|exact Hne|].
    intros t Ht. now apply Hplain.
Qed.

Lemma split_of_escaped_join_witness :
  split_on_commas
    (Py.join comma (map escape ["a,b"; "c" ++ bslash ++ "d"; EmptyString]))
  = Ok ["a,b"; "c" ++ bslash ++ "d"; EmptyString].
Proof.
  apply split_of_escaped_join; [discriminate|].
  intros t Ht. simpl in Ht.
  repeat (destruct Ht as [<-|Ht];
          [unfold no_quote_or_bracket, csv_token, occurs; simpl;
           repeat split; try (intuition discriminate);
           vm_compute; discriminate|]).
  destruct Ht.
Defined.

(** ** Brackets that open no list *)

Lemma split_token_occurs (sep c : ascii) (s t : string) :
  In t (Py.split sep s) -> occurs c t -> occurs c s.
Proof.
  unfold occurs. revert t; induction s as [|x s IH]; intros t; simpl.
  - intros [<-|[]] H. exact H.
  - destruct (Ascii.eqb x sep).
    + intros [<-|H] Hc; [simpl in Hc; tauto|right; eauto].
    + destruct (Py.split sep s) as [|hd tl] eqn:S.
      * intros [<-|[]] [H|[]]. now left.
      * intros [<-|H] Hc.
        -- simpl in Hc. destruct Hc as [Hc|Hc]; [now left|right].
           apply (IH hd); simpl; auto.
        -- right. apply (IH t); simpl; auto.
Qed.

Lemma split_token_length (sep : ascii) (s t : string) :
  In t (Py.split sep s) -> (String.length t <= String.length s)%nat.
Proof.
  revert t; induction s as [|x s IH]; intros t; simpl.
  - intros [<-|[]]. simpl. lia.
  - destruct (Ascii.eqb x sep).
    + intros [<-|H]; [simpl; lia|]. apply IH in H. lia.
    + destruct (Py.split sep s) as [|hd tl] eqn:S.
      * intros [<-|[]]. simpl. lia.
      * intros [<-|H].
        -- simpl. specialize (IH hd (or_introl eq_refl)). lia.
        -- specialize (IH t (or_intror H)). lia.
Qed.

Lemma find_from_none_shift (sub s : string) (i j : Z) :
  0 <= i -> 0 <= j ->
  Py.find_from sub s i = -1 -> Py.find_from sub s j = -1.
Proof.
  revert i j; induction s as [|c s IH]; intros i j Hi Hj.
  - rewrite (find_from_eq sub EmptyString i), (find_from_eq sub EmptyString j).
    destruct (prefix sub EmptyString); [lia|reflexivity].
  - rewrite (find_from_eq sub (String c s) i),
            (find_from_eq sub (String c s) j).
    destruct (prefix sub (String c s)); [lia|].
    apply IH; lia.
Qed.

Lemma find_none_cons (sub : string) (c : ascii) (s : string) :
  Py.find sub (String c s) = -1 <->
  prefix sub (String c s) = false /\ Py.find sub s = -1.
Proof.
  unfold Py.find. rewrite (find_from_eq sub (String c s)).
  destruct (prefix sub (String c s)).
  - split; [lia|intros [H _]; discriminate H].
  - split.
    + intros H. split; [reflexivity|].
      now apply (find_from_none_shift sub s (0 + 1) 0).
    + intros [_ H]. now apply (find_from_none_shift sub s 0 (0 + 1)).
Qed.

Lemma split_head_first (sep x : ascii) (s hd : string) (tl : list string) :
  Py.split sep s = String x hd :: tl -> exists s', s = String x s'.
Proof.
  destruct s as [|c s]; simpl; [discriminate|].
  destruct (Ascii.eqb c sep); [discriminate|].
  destruct (Py.split sep s); intros H; injection H as -> _;
    now exists s.
Qed.

Lemma prefix_two (a b c : ascii) (s : string) :
  prefix (String a (chr b)) (String c s)
  = Ascii.eqb a c && match s with
                     | EmptyString => false
                     | String x _ => Ascii.eqb b x
                     end.
Proof.
  cbn [prefix]. destruct (ascii_dec a c) as [->|Hne].
  - rewrite Ascii.eqb_refl. destruct s as [|x s]; [reflexivity|].
    apply prefix_chr.
  - apply Ascii.eqb_neq in Hne. now rewrite Hne.
Qed.

(** A string without the list marker has no token with the list marker. *)
Lemma split_token_marker (s t : string) :
  Py.find list_marker s = -1 ->
  In t (Py.split comma_c s) -> Py.find list_marker t = -1.
Proof.
  revert t; induction s as [|c s IH]; intros t Hs.
  - intros [<-|[]]. reflexivity.
  - apply find_none_cons in Hs as [Hp Hs]. cbn [Py.split].
    destruct (Ascii.eqb c comma_c).
    + intros [<-|H]; [reflexivity|now apply IH].
    + destruct (Py.split comma_c s) as [|hd tl] eqn:S.
      * now apply split_not_nil in S.
      * intros [<-|H]; [|apply IH; simpl; auto].
        apply find_none_cons. split; [|apply IH; simpl; auto].
        change list_marker with (String "=" (chr "[")) in *.
        rewrite prefix_two in Hp |- *.
        destruct (Ascii.eqb "=" c); [|reflexivity].
        destruct hd as [|x hd]; [reflexivity|].
        apply split_head_first in S as [s' ->]. exact Hp.
Qed.

(** Without double quote, backslash and line break the rough parts are the
    plain comma split. *)
Lemma rough_parts_plain_split (value : string) :
  value <> EmptyString ->
  ~ occurs dquote_c value -> ~ occurs bslash_c value ->
  ~ occurs nl_c value -> ~ occurs cr_c value ->
  Py.len value <= Csv.field_limit ->
  rough_parts value = Ok (Py.split comma_c value).
Proof.
  intros Hne Hd Hb Hn Hr Hlen.
  assert (Hplain : forall t, In t (Py.split comma_c value) ->
            ~ occurs comma_c t /\ ~ occurs bslash_c t).
  { intros t Ht. split; [now apply split_tokens_free in Ht|].
    intros H. apply Hb. eapply split_token_occurs; eauto. }
  pose proof (reader_escaped (Py.split comma_c value)) as H.
  rewrite map_escape_plain in H by exact Hplain.
  unfold comma in H. rewrite join_split in H.
  unfold rough_parts. rewrite H; [reflexivity|apply split_not_nil| |exact Hne].
  intros t Ht. unfold csv_token.
  repeat split; try (intros Ho; eapply split_token_occurs in Ho; eauto; fail).
  apply split_token_length in Ht. unfold Py.len in *. lia.
Qed.

(** A part with no quote character that is not taken as a list is kept. *)
Lemma for_parts_keep_no_list (recur : string -> outcome (list string))
    (value : string) (k : nat) (rest new_parts : list string) :
  (forall p, In p rest ->
     _find_quote_char_in_part p = None /\ is_list value p None = false) ->
  (List.length rest <= k)%nat ->
  for_parts recur value k rest new_parts = Ok (new_parts ++ rest)%list.
Proof.
  revert k new_parts; induction rest as [|p ps IH]; intros k new_parts H Hk.
  - rewrite app_nil_r. now destruct k.
  - destruct k as [|k]; [simpl in Hk; lia|].
    destruct (H p) as [Hq Hl]; [simpl; auto|].
    cbn [for_parts]. rewrite Hq, Hl.
    rewrite IH; [|intros q Hq'; apply H; simpl; auto|simpl in Hk; lia].
    now rewrite <- app_assoc.
Qed.

(** With no quote character and no part taken as a list,
    [_split_with_quotes] returns the plain comma split. *)
Lemma split_with_quotes_no_list (value : string) :
  value <> EmptyString ->
  ~ occurs dquote_c value -> ~ occurs squote_c value ->
  ~ occurs bslash_c value -> ~ occurs nl_c value -> ~ occurs cr_c value ->
  ~ occurs rbrack_c value \/ Py.find list_marker value = -1 ->
  Py.len value <= Csv.field_limit ->
  _split_with_quotes value = Ok (Py.split comma_c value).
Proof.
  intros Hne Hd Hs Hb Hn Hr Hno Hlen.
  rewrite (split_with_quotes_unfold _ _
             (rough_parts_plain_split _ Hne Hd Hb Hn Hr Hlen)).
  apply for_parts_keep_no_list; [|lia].
  intros p Hp; split.
  - apply find_quote_char_one_kind;
      intros H; eapply split_token_occurs in H; eauto.
  - unfold is_list. destruct Hno as [Hno|Hno].
    + apply (find_chr_absent _ _ 0) in Hno; [|lia].
      unfold rbrack, Py.find. rewrite Hno. now rewrite andb_false_r.
    + now rewrite (split_token_marker _ _ Hno Hp).
Qed.

(** X4: without quotes, backslashes and line breaks, an input that lacks
    the closing bracket or lacks the list marker is split as plain
    comma-separated text: stray brackets change nothing. *)
Theorem brackets_without_list (value : string) :
  ~ occurs dquote_c value -> ~ occurs squote_c value ->
  ~ occurs bslash_c value -> ~ occurs nl_c value -> ~ occurs cr_c value ->
  ~ occurs rbrack_c value \/ Py.find list_marker value = -1 ->
  Py.len value <= Csv.field_limit ->
  split_on_commas value = Ok (Py.split comma_c value).
Proof.
  intros Hd Hs Hb Hn Hr Hno Hlen.
  destruct (in_dec ascii_dec lbrack_c (list_ascii_of_string value)) as [Hl|Hl];
    [|destruct (in_dec ascii_dec rbrack_c (list_ascii_of_string value))
        as [Hrb|Hrb]].
  3: { apply split_on_commas_fast. repeat split; assumption. }
  all: rewrite split_on_commas_quoting by auto.
  all: apply split_with_quotes_no_list; auto.
  all: intros ->; simpl in *; tauto.
Qed.

Lemma brackets_without_list_witness :
  split_on_commas "foo,bar=a[b][c],baz" = Ok ["foo"; "bar=a[b][c]"; "baz"].
Proof.
  apply (brackets_without_list "foo,bar=a[b][c],baz").
  - unfold occurs; simpl; intuition discriminate.
  - unfold occurs; simpl; intuition discriminate.
  - unfold occurs; simpl; intuition discriminate.
  - unfold occurs; simpl; intuition discriminate.
  - unfold occurs; simpl; intuition discriminate.
  - right. vm_compute. reflexivity.
  - vm_compute. discriminate.
Defined.

(** ** What [_eat_items] returns *)

(** What a successful [_eat_items] took from the iterator. *)
Lemma eat_loop_ok_inv (value : string) (iter_parts chunks : list string)
    (end_char replace_char chunk : string) (rest : list string) :
  eat_loop value iter_parts chunks end_char replace_char = Ok (chunk, rest) ->
  exists mid last,
    iter_parts = (mid ++ last :: rest)%list /\
    (forall p, In p mid -> Py.endswith p end_char = false) /\
    Py.endswith last end_char = true /\
    chunk = Py.join comma
              (chunks ++ map (Py.replace_with_empty replace_char)
                             (mid ++ [last]))%list.
Proof.
  revert chunks; induction iter_parts as [|p ps IH]; intros chunks; simpl.
  - discriminate.
  - destruct (Py.endswith p end_char) eqn:E.
    + intros H. injection H as <- <-. exists [], p. repeat split; auto.
      intros q [].
    + intros H. apply IH in H as (mid & last & -> & Hmid & Hlast & ->).
      exists (p :: mid), last. repeat split; auto.
      * intros q [<-|Hq]; auto.
      * now rewrite <- app_assoc.
Qed.

Lemma eat_loop_raise_inv (value : string) (iter_parts chunks : list string)
    (end_char replace_char : string) (e : exn) :
  eat_loop value iter_parts chunks end_char replace_char = Raise e ->
  forall p, In p iter_parts -> Py.endswith p end_char = false.
Proof.
  revert chunks; induction iter_parts as [|p ps IH]; intros chunks; simpl.
  - intros _ q [].
  - destruct (Py.endswith p end_char) eqn:E; [discriminate|].
    intros H q [<-|Hq]; [exact E|eauto].
Qed.

(** X6: [_eat_items] raises [ValueError(value)] exactly when no part left
    in the iterator ends with the end character; otherwise it stops at the
    first part that does, returns the comma join of the part it was given
    and the parts drawn (each with the replace character removed), and
    leaves the parts after.  The part it was given is not tested for the
    end character. *)
Theorem eat_items_stops_at_first_end (value : string)
    (iter_parts : list string) (part end_char replace_char : string) :
  (_eat_items value iter_parts part end_char replace_char
     = Raise (ValueError value) <->
   forall p, In p iter_parts -> Py.endswith p end_char = false) /\
  (forall chunk rest,
     _eat_items value iter_parts part end_char replace_char = Ok (chunk, rest)
     <->
     exists mid last,
       iter_parts = (mid ++ last :: rest)%list /\
       (forall p, In p mid -> Py.endswith p end_char = false) /\
       Py.endswith last end_char = true /\
       chunk = Py.join comma
                 (map (Py.replace_with_empty replace_char)
                      (part :: mid ++ [last]))).
Proof.
  unfold _eat_items. split; [split|intros chunk rest; split].
  - apply eat_loop_raise_inv.
  - apply eat_loop_exhausted.
  - apply eat_loop_ok_inv.
  - intros (mid & last & -> & Hmid & Hlast & ->).
    now rewrite eat_loop_found by assumption.
Qed.

Lemma remove_char_absent (c : ascii) (s : string) :
  ~ occurs c (Py.replace_with_empty (chr c) s).
Proof.
  unfold occurs. cbn [Py.replace_with_empty chr].
  induction s as [|x s IH]; [simpl; tauto|].
  cbn [Py.remove_from]. fold (chr c). rewrite prefix_chr.
  destruct (Ascii.eqb c x) eqn:E; [exact IH|].
  apply Ascii.eqb_neq in E. simpl. intros [H|H]; [congruence|auto].
Qed.

(** X5: the chunk [_eat_items] returns holds no occurrence of the
    character it was told to replace: a quote character is removed
    wherever it stands, not only at the two ends of the quoted section. *)
Theorem eat_items_removes_replace_char (value : string)
    (iter_parts : list string) (part end_char : string) (c : ascii)
    (chunk : string) (rest : list string) :
  c <> comma_c ->
  _eat_items value iter_parts part end_char (chr c) = Ok (chunk, rest) ->
  ~ occurs c chunk.
Proof.
  intros Hc H. unfold _eat_items in H.
  apply eat_loop_ok_inv in H as (mid & last & _ & _ & _ & ->).
  rewrite occurs_join. intros [[x [Hx Ho]] | [Ho _]].
  - change ([Py.replace_with_empty (chr c) part] ++
            map (Py.replace_with_empty (chr c)) (mid ++ [last]))%list
      with (map (Py.replace_with_empty (chr c)) (part :: mid ++ [last]))
      in Hx.
    apply in_map_iff in Hx as [y [<- _]]. now apply remove_char_absent in Ho.
  - apply occurs_chr in Ho. contradiction.
Qed.

Lemma eat_items_removes_replace_char_witness :
  ~ occurs squote_c "k=a,b".
Proof.
  apply (eat_items_removes_replace_char "k='a,b'" ["b'"] "k='a" squote
           squote_c "k=a,b" []).
  - unfold squote_c, comma_c. discriminate.
  - vm_compute. reflexivity.
Defined.

(** ** The number of tokens *)

(** Every turn of the loop appends one token and draws at least one
    part. *)
Lemma for_parts_count (recur : string -> outcome (list string))
    (value : string) (k : nat) (iter_parts new_parts out : list string) :
  for_parts recur value k iter_parts new_parts = Ok out ->
  (List.length new_parts + (match iter_parts with [] => 0 | _ => 1 end)
     <= List.length out
   <= List.length new_parts + List.length iter_parts)%nat.
Proof.
  revert iter_parts new_parts.
  induction k as [|k IH]; intros [|part rest] new_parts; cbn [for_parts];
    try discriminate; try (intros H; injection H as <-; simpl; lia).
  assert (Hstep : forall rest' tok,
            (List.length rest' <= List.length rest)%nat ->
            for_parts recur value k rest' (new_parts ++ [tok]) = Ok out ->
            (List.length new_parts + 1 <= List.length out
             <= List.length new_parts + List.length (part :: rest))%nat).
  { intros rest' tok Hl H. apply IH in H. rewrite length_app in H.
    simpl in *. destruct rest'; simpl in *; lia. }
  destruct (is_list value part (_find_quote_char_in_part part)).
  - destruct (if Py.contains rbrack part then Ok (part, rest)
              else _eat_items value rest part rbrack EmptyString)
      as [[chunk rest']| |] eqn:E; cbn [bind fst snd]; try discriminate.
    assert (Hl : (List.length rest' <= List.length rest)%nat).
    { destruct (Py.contains rbrack part).
      - injection E as _ <-. lia.
      - unfold _eat_items in E. apply eat_loop_rest in E. lia. }
    destruct (recur _); cbn [bind]; try discriminate.
    now apply Hstep.
  - destruct (_find_quote_char_in_part part) as [q|];
      [|now apply Hstep].
    destruct (Py.count q part =? 2); [now apply Hstep|].
    destruct (_eat_items value rest part q q) as [[chunk rest']| |] eqn:E;
      cbn [bind fst snd]; try discriminate.
    unfold _eat_items in E. apply eat_loop_rest in E.
    apply Hstep. lia.
Qed.

(** X7: on an input with a quote or a bracket, the output has no more
    tokens than the rough split has parts, and has a token when the rough
    split has a part: quotes and lists only merge rough parts. *)
Theorem split_merges_rough_parts (value : string) (parts ts : list string) :
  occurs dquote_c value \/ occurs squote_c value \/
  occurs lbrack_c value \/ occurs rbrack_c value ->
  rough_parts value = Ok parts ->
  split_on_commas value = Ok ts ->
  (List.length ts <= List.length parts)%nat /\ (parts <> [] -> ts <> []).
Proof.
  intros Hq Hrough H.
  rewrite split_on_commas_quoting in H by exact Hq.
  rewrite (split_with_quotes_unfold _ _ Hrough) in H.
  apply for_parts_count in H. simpl in H. split; [lia|].
  intros Hne ->. destruct parts; [congruence|]. simpl in H. lia.
Qed.

Lemma split_merges_rough_parts_witness :
  (List.length ["key=a,b"; "c"] <= List.length ["key='a"; "b'"; "c"])%nat /\
  (["key='a"; "b'"; "c"] <> [] -> ["key=a,b"; "c"] <> []).
Proof.
  apply (split_merges_rough_parts "key='a,b',c").
  - right; left. unfold occurs; simpl; auto 10.
  - vm_compute. reflexivity.
  - vm_compute. reflexivity.
Defined.

(** ** Event names *)

Lemma split_app_sep_free (sep : ascii) (a b : string) :
  ~ occurs sep a -> ~ occurs sep b ->
  Py.split sep (a ++ String sep b) = [a; b].
Proof.
  intros Ha Hb. rewrite split_app_sep by exact Ha. now rewrite split_free.
Qed.

(** X9: [find_service_and_method_in_event_name] returns the second and
    the third dot-separated component of the event name: nothing for a
    name without dot, the service alone for a name with one dot; what
    follows the third component and what the first component is make no
    difference. *)
Theorem event_name_components :
  (forall a, ~ occurs dot_c a ->
     find_service_and_method_in_event_name a = (None, None)) /\
  (forall a b, ~ occurs dot_c a -> ~ occurs dot_c b ->
     find_service_and_method_in_event_name (a ++ "." ++ b) = (Some b, None)) /\
  (forall a b c rest,
     ~ occurs dot_c a -> ~ occurs dot_c b -> ~ occurs dot_c c ->
     find_service_and_method_in_event_name (a ++ "." ++ b ++ "." ++ c)
       = (Some b, Some c) /\
     find_service_and_method_in_event_name
       (a ++ "." ++ b ++ "." ++ c ++ "." ++ rest) = (Some b, Some c)) /\
  (forall a a' names, ~ occurs dot_c a -> ~ occurs dot_c a' ->
     find_service_and_method_in_event_name (a ++ "." ++ names)
     = find_service_and_method_in_event_name (a' ++ "." ++ names)).
Proof.
  unfold find_service_and_method_in_event_name.
  split; [|split; [|split]].
  - intros a Ha. now rewrite split_free.
  - intros a b Ha Hb.
    change (a ++ "." ++ b) with (a ++ String dot_c b).
    now rewrite split_app_sep_free.
  - intros a b c rest Ha Hb Hc. split.
    + change (a ++ "." ++ b ++ "." ++ c)
        with (a ++ String dot_c (b ++ String dot_c c)).
      rewrite split_app_sep by exact Ha.
      now rewrite split_app_sep_free.
    + change (a ++ "." ++ b ++ "." ++ c ++ "." ++ rest)
        with (a ++ String dot_c (b ++ String dot_c (c ++ String dot_c rest))).
      rewrite !split_app_sep by assumption. cbn [List.tl nth_error].
      replace (_ >? 0) with true
        by (symmetry; apply Z.gtb_lt; cbn [List.length]; lia).
      replace (_ >? 1) with true
        by (symmetry; apply Z.gtb_lt; cbn [List.length]; lia).
      reflexivity.
  - intros a a' names Ha Ha'.
    change (a ++ "." ++ names) with (a ++ String dot_c names).
    change (a' ++ "." ++ names) with (a' ++ String dot_c names).
    now rewrite !split_app_sep by assumption.
Qed.

Lemma event_name_components_witness :
  find_service_and_method_in_event_name "before-call.s3.PutObject.extra"
  = (Some "s3", Some "PutObject").
Proof.
  apply (proj2 (proj1 (proj2 (proj2 event_name_components))
                  "before-call" "s3" "PutObject" "extra"
                  ltac:(unfold occurs; simpl; intuition discriminate)
                  ltac:(unfold occurs; simpl; intuition discriminate)
                  ltac:(unfold occurs; simpl; intuition discriminate))).
Defined.

(** ** A list alone *)

Lemma split_app_head (sep : ascii) (a s : string) :
  ~ occurs sep a ->
  exists hd tl, Py.split sep s = hd :: tl /\
                Py.split sep (a ++ s) = (a ++ hd) :: tl.
Proof.
  unfold occurs. intros Ha.
  destruct (Py.split sep s) as [|hd tl] eqn:S; [now apply split_not_nil in S|].
  exists hd, tl. split; [reflexivity|].
  induction a as [|c a IH]; [exact S|].
  simpl in *. destruct (Ascii.eqb c sep) eqn:E.
  - apply Ascii.eqb_eq in E. exfalso; auto.
  - now rewrite IH by auto.
Qed.

Lemma split_app_last (sep : ascii) (s b : string) :
  ~ occurs sep b ->
  exists init lst, Py.split sep s = (init ++ [lst])%list /\
                   Py.split sep (s ++ b) = (init ++ [(lst ++ b)%string])%list.
Proof.
  intros Hb. induction s as [|c s IH].
  - exists [], EmptyString. split; [reflexivity|]. simpl. now apply split_free.
  - destruct IH as (init & lst & Hs & Hsb). simpl.
    destruct (Ascii.eqb c sep).
    + exists (EmptyString :: init), lst. now rewrite Hs, Hsb.
    + rewrite Hs, Hsb. destruct init as [|i init].
      * exists [], (String c lst). split; reflexivity.
      * exists (String c i :: init), lst. split; reflexivity.
Qed.

(** The first list marker after a prefix without opening bracket. *)
Lemma find_marker_append (p s : string) (i : Z) :
  ~ occurs lbrack_c p ->
  Py.find_from list_marker (p ++ list_marker ++ s) i = i + Py.len p.
Proof.
  unfold occurs, Py.len. revert i; induction p as [|c p IH]; intros i Hp.
  - rewrite find_from_eq.
    change (EmptyString ++ list_marker ++ s) with (String "=" (String "[" s)).
    change list_marker with (String "=" (chr "[")).
    rewrite prefix_two. cbn [Ascii.eqb Bool.eqb andb String.length]. lia.
  - rewrite find_from_eq.
    change ((String c p) ++ list_marker ++ s)
      with (String c (p ++ list_marker ++ s)).
    change list_marker with (String "=" (chr "[")) at 1.
    rewrite prefix_two.
    replace (match p ++ list_marker ++ s with
             | EmptyString => false
             | String x _ => Ascii.eqb "[" x
             end) with false.
    + rewrite andb_false_r. rewrite IH by (simpl in Hp; tauto).
      simpl String.length. lia.
    + destruct p as [|x p]; [reflexivity|].
      change ((String x p) ++ list_marker ++ s)
        with (String x (p ++ list_marker ++ s)).
      cbv beta iota. symmetry. apply Ascii.eqb_neq. intros <-.
      apply Hp. simpl. auto.
Qed.

Lemma substring_all (s : string) : substring 0 (String.length s) s = s.
Proof. induction s as [|c s IH]; simpl; [reflexivity|now rewrite IH]. Qed.

Lemma endswith_append (a b : string) : Py.endswith (a ++ b) b = true.
Proof.
  unfold Py.endswith. rewrite length_append.
  replace (String.length a + String.length b - String.length b)%nat
    with (String.length a + 0)%nat by lia.
  rewrite substring_skip, substring_all, String.eqb_refl.
  rewrite andb_true_r. apply Nat.leb_le. lia.
Qed.

Lemma substring_one_occurs (c : ascii) (s : string) (k : nat) :
  substring k 1 s = chr c -> occurs c s.
Proof.
  unfold occurs. revert k; induction s as [|x s IH]; intros [|k]; simpl;
    try discriminate.
  - destruct s; intros H; injection H as ->; auto.
  - intros H. right. eauto.
Qed.

Lemma endswith_chr_occurs (c : ascii) (s : string) :
  Py.endswith s (chr c) = true -> occurs c s.
Proof.
  unfold Py.endswith. intros H. apply andb_prop in H as [_ H].
  apply String.eqb_eq in H. eapply substring_one_occurs; eauto.
Qed.

(** X8: a single token [prefix=[inner]] whose prefix and inside hold no
    quote, backslash, closing bracket or line break (the inside may hold
    commas) is returned as the one token [prefix=inner]: the brackets are
    dropped and the inside is kept as it is. *)
Theorem plain_list_is_flattened (prefix inner : string) :
  ~ occurs comma_c prefix -> ~ occurs lbrack_c prefix ->
  ~ occurs rbrack_c prefix -> ~ occurs rbrack_c inner ->
  inner <> EmptyString ->
  (forall c, In c [dquote_c; squote_c; bslash_c; nl_c; cr_c] ->
             ~ occurs c prefix /\ ~ occurs c inner) ->
  Py.len (prefix ++ list_marker ++ inner ++ rbrack) <= Csv.field_limit ->
  split_on_commas (prefix ++ list_marker ++ inner ++ rbrack)
    = Ok [prefix ++ "=" ++ inner].
Proof.
  intros Hpc Hpl Hpr Hir Hne Hch Hlen.
  set (value := prefix ++ list_marker ++ inner ++ rbrack) in *.
  assert (Hocc : forall c, occurs c value ->
            occurs c prefix \/ c = "="%char \/ c = lbrack_c \/
            occurs c inner \/ c = rbrack_c).
  { intros c. unfold value. rewrite !occurs_append.
    intros [H|[H|[H|H]]]; auto.
    - unfold occurs in H. simpl in H.
      destruct H as [H|[H|[]]]; subst; auto.
    - apply occurs_chr in H. auto. }
  assert (Hfree : forall c, In c [dquote_c; squote_c; bslash_c; nl_c; cr_c] ->
            ~ occurs c value).
  { intros c Hc Ho. destruct (Hch c Hc) as [H1 H2].
    apply Hocc in Ho as [Ho | [-> | [-> | [Ho | ->]]]]; auto;
      simpl in Hc; repeat (destruct Hc as [Hc|Hc]; try discriminate Hc);
      exact Hc. }
  assert (Hrb : occurs rbrack_c value).
  { unfold value. rewrite !occurs_append. right; right; right.
    unfold occurs; simpl; auto. }
  assert (Hvne : value <> EmptyString)
    by (intros E; rewrite E in Hrb; exact Hrb).
  assert (Hilen : (String.length inner < String.length value)%nat).
  { unfold value. rewrite !length_append. simpl. lia. }
  (* the inside splits plainly *)
  assert (Hinner : _split_with_quotes inner = Ok (Py.split comma_c inner)).
  { apply split_with_quotes_no_list; auto;
      try (apply Hch; simpl; tauto).
    unfold Py.len in *. lia. }
  (* the rough parts *)
  rewrite split_on_commas_quoting by auto.
  pose proof (rough_parts_plain_split value Hvne
                (Hfree dquote_c ltac:(simpl; tauto))
                (Hfree bslash_c ltac:(simpl; tauto))
                (Hfree nl_c ltac:(simpl; tauto))
                (Hfree cr_c ltac:(simpl; tauto))
                Hlen) as Hrough.
  rewrite (split_with_quotes_unfold _ _ Hrough).
  assert (Hpm : ~ occurs comma_c (prefix ++ list_marker)).
  { rewrite occurs_append. unfold occurs at 2. simpl.
    intros [H|[H|[H|[]]]]; auto; discriminate H. }
  destruct (split_app_head comma_c (prefix ++ list_marker) (inner ++ rbrack) Hpm)
    as (hd & tl & Htail & Hsplit).
  assert (Hval : value = (prefix ++ list_marker) ++ inner ++ rbrack)
    by (unfold value; now rewrite append_assoc_string).
  rewrite <- Hval in Hsplit.
  destruct (split_app_last comma_c inner rbrack
              ltac:(unfold occurs; simpl; intros [H|[]]; discriminate H))
    as (init & lst & Hin & Hinb).
  rewrite Hinb in Htail.
  assert (Hjoin : Py.join comma (((prefix ++ list_marker) ++ hd)%string :: tl)
                  = value).
  { rewrite <- Hsplit. unfold comma. apply join_split. }
  assert (Htok : forall t, In t (init ++ [lst])%list -> ~ occurs rbrack_c t).
  { intros t Ht Ho. rewrite <- Hin in Ht.
    apply Hir. eapply split_token_occurs; eauto. }
  assert (Hclose : closes ((prefix ++ list_marker) ++ hd) tl).
  { destruct init as [|i1 imid]; simpl in Htail; injection Htail as <- <-.
    - now left.
    - right. split.
      + apply contains_chr_false. rewrite !occurs_append.
        intros [[H|H]|H]; auto.
        * unfold occurs in H. simpl in H.
          destruct H as [H|[H|[]]]; discriminate H.
        * apply (Htok i1); simpl; auto.
      + exists imid, (lst ++ rbrack). split; [reflexivity|]. split.
        * intros p Hp.
          destruct (Py.endswith p rbrack) eqn:E; [|reflexivity].
          apply endswith_chr_occurs in E. exfalso.
          apply (Htok p); [|exact E]. simpl. right.
          apply in_or_app. now left.
        * apply endswith_append. }
  rewrite Hsplit. cbn [List.length]. rewrite <- (app_nil_r tl) at 2.
  rewrite (for_parts_list_spliced _ _ _ prefix inner).
  - rewrite split_with_quotes_inside by exact Hilen.
    rewrite Hinner. cbn [bind List.length for_parts].
    destruct (List.length tl); unfold comma; rewrite join_split; reflexivity.
  - rewrite append_assoc_string. unfold Py.find.
    rewrite find_marker_append by exact Hpl. lia.
  - unfold is_list.
    replace (_find_quote_char_in_part ((prefix ++ list_marker) ++ hd))
      with (@None string).
    + rewrite append_assoc_string. unfold Py.find at 1.
      rewrite find_marker_append by exact Hpl.
      apply contains_chr_true in Hrb. unfold Py.contains, rbrack in *.
      rewrite Hrb. rewrite !andb_true_r. apply Z.geb_le.
      unfold Py.len. lia.
    + symmetry. apply find_quote_char_one_kind; intros Ho;
        (eapply (split_token_occurs comma_c _ value) in Ho;
         [|rewrite Hsplit; left; reflexivity]);
        revert Ho; apply Hfree; simpl; tauto.
  - exact Hclose.
  - exact Hjoin.
Qed.

Lemma plain_list_is_flattened_witness :
  split_on_commas "tags=[a=1,b=2]" = Ok ["tags=a=1,b=2"].
Proof.
  apply (plain_list_is_flattened "tags" "a=1,b=2").
  - unfold occurs; simpl; intuition discriminate.
  - unfold occurs; simpl; intuition discriminate.
  - unfold occurs; simpl; intuition discriminate.
  - unfold occurs; simpl; intuition discriminate.
  - discriminate.
  - intros c Hc. simpl in Hc.
    repeat (destruct Hc as [<-|Hc]; [unfold occurs; simpl;
                                     intuition discriminate|]).
    destruct Hc.
  - vm_compute. discriminate.
Defined.

(** ** A quoted value alone *)

Lemma count_chr_cons (c x : ascii) (s : string) :
  Py.count (chr c) (String x s)
  = (if Ascii.eqb c x then 1 else 0) + Py.count (chr c) s.
Proof.
  cbn [Py.count chr Py.count_from]. fold (chr c). rewrite prefix_chr.
  cbn [String.length Nat.sub]. now destruct (Ascii.eqb c x).
Qed.

Lemma count_chr_append (c : ascii) (a b : string) :
  Py.count (chr c) (a ++ b) = Py.count (chr c) a + Py.count (chr c) b.
Proof.
  induction a as [|x a IH]; [reflexivity|].
  change ((String x a) ++ b) with (String x (a ++ b)).
  rewrite !count_chr_cons, IH. lia.
Qed.

Lemma count_chr_absent (c : ascii) (s : string) :
  ~ occurs c s -> Py.count (chr c) s = 0.
Proof.
  unfold occurs. induction s as [|x s IH]; intros H; [reflexivity|].
  rewrite count_chr_cons. simpl in H.
  replace (Ascii.eqb c x) with false
    by (symmetry; apply Ascii.eqb_neq; intros ->; auto).
  rewrite IH by auto. reflexivity.
Qed.

Lemma replace_chr_cons (c x : ascii) (s : string) :
  Py.replace_with_empty (chr c) (String x s)
  = if Ascii.eqb c x then Py.replace_with_empty (chr c) s
    else String x (Py.replace_with_empty (chr c) s).
Proof.
  cbn [Py.replace_with_empty chr Py.remove_from]. fold (chr c).
  now rewrite prefix_chr.
Qed.

Lemma replace_chr_append (c : ascii) (a b : string) :
  Py.replace_with_empty (chr c) (a ++ b)
  = Py.replace_with_empty (chr c) a ++ Py.replace_with_empty (chr c) b.
Proof.
  induction a as [|x a IH]; [reflexivity|].
  change ((String x a) ++ b) with (String x (a ++ b)).
  rewrite !replace_chr_cons, IH. now destruct (Ascii.eqb c x).
Qed.

Lemma replace_chr_absent (c : ascii) (s : string) :
  ~ occurs c s -> Py.replace_with_empty (chr c) s = s.
Proof.
  unfold occurs. induction s as [|x s IH]; intros H; [reflexivity|].
  rewrite replace_chr_cons. simpl in H.
  replace (Ascii.eqb c x) with false
    by (symmetry; apply Ascii.eqb_neq; intros ->; auto).
  now rewrite IH by auto.
Qed.

Lemma replace_chr_self (c : ascii) :
  Py.replace_with_empty (chr c) (chr c) = EmptyString.
Proof. unfold chr at 2. now rewrite replace_chr_cons, Ascii.eqb_refl. Qed.

Lemma count_chr_self (c : ascii) : Py.count (chr c) (chr c) = 1.
Proof. unfold chr at 2. now rewrite count_chr_cons, Ascii.eqb_refl. Qed.

Lemma replace_chr_join (c : ascii) (l : list string) :
  c <> comma_c ->
  Py.replace_with_empty (chr c) (Py.join comma l)
  = Py.join comma (map (Py.replace_with_empty (chr c)) l).
Proof.
  intros Hc. induction l as [|x l IH]; [reflexivity|].
  destruct l as [|y l]; [reflexivity|].
  change (Py.join comma (x :: y :: l))
    with (x ++ comma ++ Py.join comma (y :: l)).
  rewrite !replace_chr_append, IH.
  rewrite (replace_chr_absent c comma)
    by (intros H; apply occurs_chr in H; contradiction).
  reflexivity.
Qed.

(** X13: a single token [prefix'body'] with a value in single quotes,
    where prefix and body hold no quote, backslash, closing bracket or line
    break (the body may hold commas), is returned as the one token
    [prefixbody]. *)
Theorem single_quoted_value_is_one_token (prefix body : string) :
  ~ occurs comma_c prefix ->
  (forall c, In c [dquote_c; squote_c; bslash_c; rbrack_c; nl_c; cr_c] ->
             ~ occurs c prefix /\ ~ occurs c body) ->
  Py.len (prefix ++ squote ++ body ++ squote) <= Csv.field_limit ->
  split_on_commas (prefix ++ squote ++ body ++ squote) = Ok [prefix ++ body].
Proof.
  intros Hpc Hch Hlen.
  set (value := prefix ++ squote ++ body ++ squote) in *.
  assert (Hocc : forall c, occurs c value ->
            occurs c prefix \/ occurs c body \/ c = squote_c).
  { intros c. unfold value. rewrite !occurs_append.
    intros [H|[H|[H|H]]]; auto; apply occurs_chr in H; auto. }
  assert (Hfree : forall c, In c [dquote_c; bslash_c; rbrack_c; nl_c; cr_c] ->
            ~ occurs c value).
  { intros c Hc Ho.
    assert (Hc' : In c [dquote_c; squote_c; bslash_c; rbrack_c; nl_c; cr_c])
      by (simpl in *; tauto).
    destruct (Hch c Hc') as [H1 H2].
    apply Hocc in Ho as [Ho | [Ho | ->]]; auto.
    simpl in Hc. repeat (destruct Hc as [Hc|Hc]; try discriminate Hc).
    exact Hc. }
  assert (Hsq : occurs squote_c value).
  { unfold value. rewrite !occurs_append. right; left.
    unfold occurs; simpl; auto. }
  assert (Hvne : value <> EmptyString)
    by (intros E; rewrite E in Hsq; exact Hsq).
  assert (Htoken : Py.replace_with_empty squote value = prefix ++ body).
  { unfold value, squote. rewrite !replace_chr_append.
    rewrite (replace_chr_absent squote_c prefix),
            (replace_chr_absent squote_c body)
      by (apply (Hch squote_c); simpl; tauto).
    rewrite replace_chr_self. cbn [append]. now rewrite append_nil. }
  rewrite split_on_commas_quoting by auto.
  pose proof (rough_parts_plain_split value Hvne
                (Hfree dquote_c ltac:(simpl; tauto))
                (Hfree bslash_c ltac:(simpl; tauto))
                (Hfree nl_c ltac:(simpl; tauto))
                (Hfree cr_c ltac:(simpl; tauto))
                Hlen) as Hrough.
  rewrite (split_with_quotes_unfold _ _ Hrough).
  assert (Hpm : ~ occurs comma_c (prefix ++ squote)).
  { rewrite occurs_append. intros [H|H]; auto.
    apply occurs_chr in H. discriminate H. }
  destruct (split_app_head comma_c (prefix ++ squote) (body ++ squote) Hpm)
    as (hd & tl & Htail & Hsplit).
  assert (Hval : value = (prefix ++ squote) ++ body ++ squote)
    by (unfold value; now rewrite append_assoc_string).
  rewrite <- Hval in Hsplit.
  destruct (split_app_last comma_c body squote
              ltac:(intros H; apply occurs_chr in H; discriminate H))
    as (init & lst & Hin & Hinb).
  rewrite Hinb in Htail.
  assert (Hjoin : Py.join comma (((prefix ++ squote) ++ hd)%string :: tl)
                  = value).
  { rewrite <- Hsplit. unfold comma. apply join_split. }
  assert (Htok : forall t, In t (init ++ [lst])%list -> ~ occurs squote_c t).
  { intros t Ht Ho. rewrite <- Hin in Ht.
    apply (proj2 (Hch squote_c ltac:(simpl; tauto))).
    eapply split_token_occurs; eauto. }
  set (part := (prefix ++ squote) ++ hd) in *.
  assert (Hq : _find_quote_char_in_part part = Some squote).
  { apply find_quote_char_one_kind.
    - unfold part. rewrite !occurs_append. left; right.
      unfold occurs; simpl; auto.
    - intros Ho.
      eapply (split_token_occurs comma_c _ value) in Ho;
        [|rewrite Hsplit; left; reflexivity].
      revert Ho. apply Hfree. simpl; tauto. }
  assert (Hnl : is_list value part (Some squote) = false).
  { unfold is_list, rbrack, Py.find.
    rewrite (proj2 (find_chr_absent rbrack_c value 0 ltac:(lia)))
      by (apply Hfree; simpl; tauto).
    now rewrite andb_false_r. }
  rewrite Hsplit. cbn [List.length].
  destruct init as [|i1 imid]; simpl in Htail; injection Htail as Hhd Htl.
  - subst tl. cbn [for_parts]. rewrite Hq, Hnl.
    replace (Py.count squote part =? 2) with true.
    + cbn [app for_parts]. simpl in Hjoin. rewrite Hjoin.
      now rewrite Htoken.
    + symmetry. apply Z.eqb_eq. unfold part, squote. rewrite <- Hhd.
      rewrite !count_chr_append, !count_chr_self.
      rewrite !count_chr_absent; [reflexivity| |].
      * apply Htok. simpl; auto.
      * apply Hch. simpl; tauto.
  - subst tl.
    rewrite (for_parts_quoted_joined _ _ _ part squote).
    + cbn [for_parts app].
      rewrite <- (replace_chr_join squote_c)
        by (unfold squote_c, comma_c; discriminate).
      rewrite Hjoin. fold squote. rewrite Htoken.
      now destruct (List.length _).
    + exact Hq.
    + exact Hnl.
    + apply Z.eqb_neq. unfold part, squote. rewrite <- Hhd.
      rewrite !count_chr_append, !count_chr_self.
      rewrite !count_chr_absent; [reflexivity| |].
      * apply Htok. simpl; auto.
      * apply Hch. simpl; tauto.
    + intros p Hp. destruct (Py.endswith p squote) eqn:E; [|reflexivity].
      apply endswith_chr_occurs in E. exfalso.
      apply (Htok p); [|exact E]. simpl. right.
      apply in_or_app. now left.
    + apply endswith_append.
Qed.

Lemma single_quoted_value_is_one_token_witness :
  split_on_commas "key='a,b'" = Ok ["key=a,b"].
Proof.
  apply (single_quoted_value_is_one_token "key=" "a,b").
  - unfold occurs; simpl; intuition discriminate.
  - intros c Hc. simpl in Hc.
    repeat (destruct Hc as [<-|Hc]; [unfold occurs; simpl;
                                     intuition discriminate|]).
    destruct Hc.
  - vm_compute. discriminate.
Defined.

(** ** Looking up the credentials *)

Section ExportProperties.

Import ExportCommand.

(** X10: [_lookup_credentials] prints nothing, and asks the session for
    its credentials exactly when the access key is neither in the
    environment nor in the config file; it looks the secret key up exactly
    in the other case. *)
Theorem lookup_credentials_sources
    (gcv : string -> method -> option string) (creds : option Credentials)
    (w : World) :
  exists new,
    calls (snd (_lookup_credentials gcv creds w)) = (calls w ++ new)%list /\
    stdout (snd (_lookup_credentials gcv creds w)) = stdout w /\
    (In get_credentials_call new <->
     gcv "access_key" env = None /\ gcv "access_key" config = None) /\
    ((exists m, In (get_config_variable_call "secret_key" m) new) <->
     ~ (gcv "access_key" env = None /\ gcv "access_key" config = None)).
Proof.
  unfold _lookup_credentials, _lookup_config, mbind, get_config_variable,
    get_credentials, ret.
  destruct w as [cs out]. cbn [calls stdout].
  destruct (gcv "access_key" env) as [a|] eqn:Ea;
    [|destruct (gcv "access_key" config) as [a|] eqn:Ec];
    try (destruct (gcv "secret_key" env) as [s|] eqn:Es);
    try (destruct (gcv "secret_key" config) as [s'|] eqn:Es');
    try destruct creds as [c|];
    cbn [fst snd calls stdout]; rewrite <- ?app_assoc; cbn [app];
    eexists; (split; [reflexivity|]); (split; [reflexivity|]);
    cbn [In];
    (split; split;
     [ intros H; repeat (destruct H as [H|H]; try discriminate H);
       try contradiction; try (split; reflexivity)
     | intros H; try (destruct H as [H1 H2]; discriminate);
       try (right; left; reflexivity); try (right; right; left; reflexivity);
       try (exfalso; apply H; split; reflexivity)
     | intros [m H] H'; destruct H' as [H1 H2]; try discriminate;
       repeat (destruct H as [H|H]; try discriminate H); try contradiction
     | intros H; try (exfalso; apply H; split; reflexivity);
       try (exists env; right; left; reflexivity);
       try (exists env; right; right; left; reflexivity) ]).
Qed.

(** X11: when the access key is neither in the environment nor in the
    config file, both keys are those of the session's credentials (or both
    are [NOT_SET] when it has none), whatever the environment and the config
    file hold as secret key; when the access key is found there, the secret
    key is what [_lookup_config] finds, [NOT_SET] included, and the
    session's credentials are not used. *)
Theorem credentials_come_as_a_pair
    (gcv : string -> method -> option string) (creds : option Credentials)
    (w : World) :
  (gcv "access_key" env = None -> gcv "access_key" config = None ->
   fst (_lookup_credentials gcv creds w)
   = match creds with
     | Some c => (Str (access_key c), Str (secret_key c))
     | None => (NOT_SET, NOT_SET)
     end) /\
  (forall a,
     fst (_lookup_config gcv "access_key" w) = Str a ->
     fst (_lookup_credentials gcv creds w)
     = (Str a, fst (_lookup_config gcv "secret_key" w))).
Proof.
  unfold _lookup_credentials, _lookup_config, mbind, get_config_variable,
    get_credentials, ret.
  split.
  - intros -> ->. cbn. now destruct creds.
  - intros a.
    destruct (gcv "access_key" env); [|destruct (gcv "access_key" config)];
      cbn; intros H; try discriminate H; injection H as ->;
      destruct (gcv "secret_key" env); try reflexivity;
      destruct (gcv "secret_key" config); reflexivity.
Qed.

Lemma credentials_come_as_a_pair_witness :
  fst (_lookup_credentials
         (fun name m => match m with
                        | env => if String.eqb name "secret_key"
                                 then Some "from-env" else None
                        | config => None
                        end)
         (Some (mkCredentials "AKIA" "role-secret")) empty_world)
  = (Str "AKIA", Str "role-secret") /\
  fst (_lookup_credentials
         (fun name m => match m with
                        | env => if String.eqb name "access_key"
                                 then Some "AKIA" else None
                        | config => None
                        end)
         (Some (mkCredentials "other" "role-secret")) empty_world)
  = (Str "AKIA", NOT_SET).
Proof.
  split.
  - exact (proj1 (credentials_come_as_a_pair
                    (fun name m =>
                       match m with
                       | env => if String.eqb name "secret_key"
                                then Some "from-env" else None
                       | config => None
                       end)
                    (Some (mkCredentials "AKIA" "role-secret")) empty_world)
                 eq_refl eq_refl).
  - exact (proj2 (credentials_come_as_a_pair
                    (fun name m =>
                       match m with
                       | env => if String.eqb name "access_key"
                                then Some "AKIA" else None
                       | config => None
                       end)
                    (Some (mkCredentials "other" "role-secret")) empty_world)
                 "AKIA" eq_refl).
Defined.

(** X12: [_run_main] adds to standard output the line of the access key,
    then the line of the secret key, then at most one line for the region:
    the region of the environment when there is one, else that of the
    config file, else no line. *)
Theorem run_main_lines (NOT_SET_text : string)
    (gcv : string -> method -> option string) (creds : option Credentials)
    (w : World) :
  stdout (snd (_run_main NOT_SET_text gcv creds w))
  = (stdout w ++
     [("export AWS_ACCESS_KEY_ID=" ++
       format NOT_SET_text (fst (fst (_lookup_credentials gcv creds w))))%string;
      ("export AWS_SECRET_ACCESS_KEY=" ++
       format NOT_SET_text (snd (fst (_lookup_credentials gcv creds w))))%string]
     ++ match gcv "region" env, gcv "region" config with
        | Some r, _ => [("export AWS_DEFAULT_REGION=" ++ r)%string]
        | None, Some r => [("export AWS_DEFAULT_REGION=" ++ r)%string]
        | None, None => []
        end)%list.
Proof.
  rewrite run_main_stdout. do 2 f_equal.
  unfold _lookup_config, mbind, get_config_variable, ret.
  destruct (gcv "region" env); [reflexivity|].
  destruct (gcv "region" config); reflexivity.
Qed.

End ExportProperties.

(** * Lists, quoted sections and failures *)

(** ** Steps of the loop *)

(** The step of the loop on a part taken as a list that holds no closing
    bracket, when no later part ends with one. *)
Lemma for_parts_unclosed_list (recur : string -> outcome (list string))
    (value : string) (k : nat) (part : string) (rest new_parts : list string) :
  is_list value part (_find_quote_char_in_part part) = true ->
  Py.contains rbrack part = false ->
  (forall p, In p rest -> Py.endswith p rbrack = false) ->
  for_parts recur value (S k) (part :: rest) new_parts
    = Raise (ValueError value).
Proof.
  intros Hlist Hpart Hrest. cbn [for_parts]. rewrite Hlist, Hpart.
  unfold _eat_items. now rewrite eat_loop_exhausted by exact Hrest.
Qed.

(** The step of the loop on a part that opens a quote, when no later part
    ends with the quote character. *)
Lemma for_parts_unclosed_quote (recur : string -> outcome (list string))
    (value : string) (k : nat) (part q : string) (rest new_parts : list string) :
  _find_quote_char_in_part part = Some q ->
  is_list value part (Some q) = false ->
  Py.count q part <> 2 ->
  (forall p, In p rest -> Py.endswith p q = false) ->
  for_parts recur value (S k) (part :: rest) new_parts
    = Raise (ValueError value).
Proof.
  intros Hq Hlist Hcount Hrest. cbn [for_parts]. rewrite Hq, Hlist.
  apply Z.eqb_neq in Hcount. rewrite Hcount.
  unfold _eat_items. now rewrite eat_loop_exhausted by exact Hrest.
Qed.


(** Without closing bracket in the value no part is taken as a list. *)
Lemma is_list_without_closing (value part : string) (q : option string) :
  ~ occurs rbrack_c value -> is_list value part q = false.
Proof.
  intros H. unfold is_list, rbrack, Py.find.
  apply (find_chr_absent _ _ 0) in H; [|lia]. rewrite H.
  now rewrite andb_false_r.
Qed.

(** Whatever the loop raises is [ValueError(value)] or was raised by a
    recursive call on the inside of a chunk. *)
Lemma for_parts_raises_or_inner (recur : string -> outcome (list string))
    (value : string) (k : nat) (iter_parts new_parts : list string) (e : exn) :
  for_parts recur value k iter_parts new_parts = Raise e ->
  e = ValueError value \/
  exists inner,
    (String.length inner + 2 <= weight iter_parts)%nat /\
    recur inner = Raise e.
Proof.
  revert iter_parts new_parts.
  induction k as [|k IH]; intros [|part rest] new_parts; cbn [for_parts];
    try discriminate.
  assert (Hrest : forall rest' np,
            (weight rest' <= weight rest)%nat ->
            for_parts recur value k rest' np = Raise e ->
            e = ValueError value \/
            exists inner,
              (String.length inner + 2 <= weight (part :: rest))%nat /\
              recur inner = Raise e).
  { intros rest' np Hw H. apply IH in H as [H | [inner [Hi H]]]; [now left|].
    right. exists inner. split; [simpl; lia|exact H]. }
  destruct (is_list value part (_find_quote_char_in_part part)) eqn:Hlist.
  - pose proof (is_list_marker _ _ _ Hlist) as Hne.
    destruct (Py.contains rbrack part).
    + cbn [bind fst snd].
      destruct (recur (Py.slice part (Py.find list_marker part + 2) (-1)))
        eqn:Er; cbn [bind]; try discriminate.
      * apply Hrest. lia.
      * intros H. injection H as <-. right.
        exists (Py.slice part (Py.find list_marker part + 2) (-1)).
        split; [|exact Er].
        pose proof (slice_inside_shorter part
                      (Py.find list_marker part + 2) Hne).
        simpl. lia.
    + unfold _eat_items.
      destruct (eat_loop value rest [Py.replace_with_empty EmptyString part]
                  rbrack EmptyString) as [[chunk rest']| e' |] eqn:Ee;
        cbn [bind fst snd]; try discriminate.
      * apply eat_loop_taken in Ee as [taken [-> [_ ->]]].
        rewrite map_replace_nothing.
        change ([Py.replace_with_empty EmptyString part] ++ taken)%list
          with (part :: taken).
        destruct (recur (Py.slice (Py.join comma (part :: taken))
                           (Py.find list_marker part + 2) (-1)))
          eqn:Er; cbn [bind]; try discriminate.
        -- apply Hrest. rewrite weight_append. lia.
        -- intros H. injection H as <-. right.
           eexists. split; [|exact Er].
           assert (Hc : Py.join comma (part :: taken) <> EmptyString).
           { destruct taken; simpl; [exact Hne|].
             destruct part; [congruence|discriminate]. }
           pose proof (slice_inside_shorter _
                         (Py.find list_marker part + 2) Hc) as Hs.
           rewrite length_join_weight in Hs.
           change (weight (part :: taken ++ rest'))
             with (weight ((part :: taken) ++ rest')).
           rewrite weight_append. lia.
      * intros H. injection H as <-. left. eapply eat_loop_raises; eauto.
  - destruct (_find_quote_char_in_part part) as [q|];
      [|apply Hrest; lia].
    destruct (Py.count q part =? 2); [apply Hrest; lia|].
    unfold _eat_items.
    destruct (eat_loop value rest [Py.replace_with_empty q part] q q)
      as [[chunk rest']| e' |] eqn:Ee; cbn [bind fst snd]; try discriminate.
    + apply eat_loop_taken in Ee as [taken [-> _]].
      apply Hrest. rewrite weight_append. lia.
    + intros H. injection H as <-. left. eapply eat_loop_raises; eauto.
Qed.

(** ** The characters of the rough parts *)








(** ** Tokens joined by commas *)

Lemma split_app_any (sep : ascii) (a b : string) :
  Py.split sep (a ++ String sep b) = (Py.split sep a ++ Py.split sep b)%list.
Proof.
  induction a as [|c a IH].
  - cbn [append Py.split]. now rewrite Ascii.eqb_refl.
  - change ((String c a) ++ String sep b) with (String c (a ++ String sep b)).
    cbn [Py.split]. rewrite IH.
    destruct (Ascii.eqb c sep); [reflexivity|].
    pose proof (split_not_nil sep a) as Hne.
    destruct (Py.split sep a) as [|hd tl]; [congruence|reflexivity].
Qed.

Lemma split_sep_free (sep : ascii) (t : string) :
  ~ occurs sep t -> Py.split sep t = [t].
Proof.
  intros H. apply (split_join sep [t]); [discriminate|].
  intros u [<-|[]]. exact H.
Qed.

(** Splitting the join of tokens, one of which may hold the separator. *)
Lemma split_join_around (sep : ascii) (pre rest : list string) (t : string) :
  (forall u, In u pre -> ~ occurs sep u) ->
  (forall u, In u rest -> ~ occurs sep u) ->
  Py.split sep (Py.join (chr sep) (pre ++ t :: rest))
  = (pre ++ Py.split sep t ++ rest)%list.
Proof.
  intros Hpre Hrest.
  assert (Htail : forall r, (forall u, In u r -> ~ occurs sep u) ->
            Py.split sep (Py.join (chr sep) (t :: r))
            = (Py.split sep t ++ r)%list).
  { intros [|y r] Hr; [cbn [Py.join]; now rewrite app_nil_r|].
    change (Py.join (chr sep) (t :: y :: r))
      with (t ++ String sep (Py.join (chr sep) (y :: r))).
    rewrite split_app_any. f_equal.
    apply split_join; [discriminate|exact Hr]. }
  induction pre as [|x pre IH]; [now apply Htail|].
  assert (Hne : (pre ++ t :: rest)%list <> []) by (now destruct pre).
  cbn [app]. destruct (pre ++ t :: rest)%list as [|y l] eqn:E; [congruence|].
  change (Py.join (chr sep) (x :: y :: l))
    with (x ++ String sep (Py.join (chr sep) (y :: l))).
  rewrite split_app_any, IH by (intros u Hu; apply Hpre; now right).
  rewrite split_sep_free by (apply Hpre; now left). reflexivity.
Qed.


(** No list marker without an opening bracket. *)
Lemma find_marker_absent (p : string) (i : Z) :
  ~ occurs lbrack_c p -> Py.find_from list_marker p i = -1.
Proof.
  unfold occurs. revert i; induction p as [|c p IH]; intros i Hp;
    [reflexivity|].
  rewrite find_from_eq.
  change list_marker with (String "=" (chr "[")) at 1.
  rewrite prefix_two.
  replace (match p with
           | EmptyString => false
           | String x _ => Ascii.eqb "[" x
           end) with false.
  - rewrite andb_false_r. apply IH. simpl in Hp. tauto.
  - destruct p as [|x p]; [reflexivity|].
    symmetry. apply Ascii.eqb_neq. intros <-. apply Hp. simpl. auto.
Qed.

Lemma weight_ge_member (l : list string) (t : string) :
  In t l -> (S (String.length t) <= weight l)%nat.
Proof.
  induction l as [|x l IH]; [intros []|intros [<-|H]]; simpl; [lia|].
  specialize (IH H). lia.
Qed.

(** ** A list among plain tokens *)

(** A token [prefix=[inner]] among tokens that hold no comma: where nothing
    but the brackets shown is a bracket that closes or, outside of [inner],
    one that opens, and the input holds no quote, backslash or line break,
    the token is returned as [prefix=inner], with the commas of [inner], and
    the other tokens are returned as they are. *)
Lemma plain_list_among_tokens (pre rest : list string)
    (prefix inner : string) :
  let value :=
    Py.join comma (pre ++ (prefix ++ list_marker ++ inner ++ rbrack) :: rest) in
  (forall t, In t (pre ++ prefix :: rest) ->
     forall c, In c [comma_c; dquote_c; squote_c; bslash_c; lbrack_c;
                     rbrack_c; nl_c; cr_c] -> ~ occurs c t) ->
  (forall c, In c [dquote_c; squote_c; bslash_c; rbrack_c; nl_c; cr_c] ->
     ~ occurs c inner) ->
  inner <> EmptyString ->
  Py.len value <= Csv.field_limit ->
  split_on_commas value
  = Ok (pre ++ [(prefix ++ "=" ++ inner)%string] ++ rest)%list.
Proof.
  intros value Htok Hinn Hne Hlen.
  set (tok := prefix ++ list_marker ++ inner ++ rbrack) in *.
  assert (Hpre : forall t c, In t pre ->
            In c [comma_c; dquote_c; squote_c; bslash_c; lbrack_c; rbrack_c;
                  nl_c; cr_c] -> ~ occurs c t)
    by (intros t c Ht; apply Htok, in_or_app; now left).
  assert (Hrest : forall t c, In t rest ->
            In c [comma_c; dquote_c; squote_c; bslash_c; lbrack_c; rbrack_c;
                  nl_c; cr_c] -> ~ occurs c t)
    by (intros t c Ht; apply Htok, in_or_app; right; now right).
  assert (Hprefix : forall c,
            In c [comma_c; dquote_c; squote_c; bslash_c; lbrack_c; rbrack_c;
                  nl_c; cr_c] -> ~ occurs c prefix)
    by (apply Htok, in_or_app; right; now left).
  assert (Htokocc : forall c, occurs c tok ->
            occurs c prefix \/ c = "="%char \/ c = lbrack_c \/
            occurs c inner \/ c = rbrack_c).
  { intros c. unfold tok. rewrite !occurs_append.
    intros [H|[H|[H|H]]]; auto.
    - unfold occurs in H. simpl in H.
      destruct H as [H|[H|[]]]; subst; auto.
    - apply occurs_chr in H. auto. }
  assert (Hfree : forall c, In c [dquote_c; squote_c; bslash_c; nl_c; cr_c] ->
            ~ occurs c value).
  { intros c Hc Ho.
    assert (Hc8 : In c [comma_c; dquote_c; squote_c; bslash_c; lbrack_c;
                        rbrack_c; nl_c; cr_c]) by (simpl in *; tauto).
    assert (Hc6 : In c [dquote_c; squote_c; bslash_c; rbrack_c; nl_c; cr_c])
      by (simpl in *; tauto).
    assert (Hcs : c <> "="%char /\ c <> lbrack_c /\ c <> rbrack_c /\
                  c <> comma_c).
    { simpl in Hc. unfold lbrack_c, rbrack_c, comma_c.
      repeat (destruct Hc as [<-|Hc]; [repeat split; discriminate|]).
      destruct Hc. }
    destruct Hcs as (H1 & H2 & H3 & H4).
    unfold value in Ho. apply occurs_join in Ho as [[t [Ht Ho]]|[Ho _]].
    - apply in_app_or in Ht as [Ht|[<-|Ht]].
      + now apply (Hpre t c).
      + apply Htokocc in Ho as [Ho|[Ho|[Ho|[Ho|Ho]]]]; try contradiction.
        * now apply (Hprefix c).
        * now apply (Hinn c).
      + now apply (Hrest t c).
    - apply occurs_chr in Ho. contradiction. }
  assert (Hintok : In tok (pre ++ tok :: rest))
    by (apply in_or_app; right; now left).
  assert (Hrb : occurs rbrack_c value).
  { unfold value. apply occurs_join. left. exists tok. split; [exact Hintok|].
    unfold tok. rewrite !occurs_append. right; right; right.
    unfold occurs; simpl; auto. }
  assert (Hvne : value <> EmptyString)
    by (intros E; rewrite E in Hrb; exact Hrb).
  assert (Hilen : (String.length inner < String.length value)%nat).
  { unfold value. rewrite length_join_weight.
    pose proof (weight_ge_member _ _ Hintok) as Hw.
    assert (Hlt : (String.length inner < String.length tok)%nat)
      by (unfold tok; rewrite !length_append; simpl; lia).
    lia. }
  assert (Hinner : _split_with_quotes inner = Ok (Py.split comma_c inner)).
  { apply split_with_quotes_no_list;
      [exact Hne| | | | | |left|unfold Py.len in *; lia];
      apply Hinn; simpl; tauto. }
  rewrite split_on_commas_quoting by auto.
  pose proof (rough_parts_plain_split value Hvne
                (Hfree dquote_c ltac:(simpl; tauto))
                (Hfree bslash_c ltac:(simpl; tauto))
                (Hfree nl_c ltac:(simpl; tauto))
                (Hfree cr_c ltac:(simpl; tauto))
                Hlen) as Hrough.
  assert (Hsplit : Py.split comma_c value
                   = (pre ++ Py.split comma_c tok ++ rest)%list).
  { unfold value, comma. apply split_join_around.
    - intros u Hu. apply (Hpre u comma_c Hu). simpl; tauto.
    - intros u Hu. apply (Hrest u comma_c Hu). simpl; tauto. }
  rewrite Hsplit in Hrough.
  rewrite (split_with_quotes_unfold _ _ Hrough).
  assert (Hkeep : forall l, (forall t c, In t l ->
            In c [comma_c; dquote_c; squote_c; bslash_c; lbrack_c; rbrack_c;
                  nl_c; cr_c] -> ~ occurs c t) ->
            forall p, In p l ->
              _find_quote_char_in_part p = None /\
              Py.find list_marker p = -1).
  { intros l Hl p Hp. split.
    - apply find_quote_char_one_kind; apply (Hl p _ Hp); simpl; tauto.
    - apply find_marker_absent. apply (Hl p _ Hp). simpl; tauto. }
  rewrite length_app.
  rewrite for_parts_keep_all by (apply Hkeep; exact Hpre).
  cbn [app].
  assert (Hpl : ~ occurs lbrack_c prefix) by (apply Hprefix; simpl; tauto).
  assert (Hpm : ~ occurs comma_c (prefix ++ list_marker)).
  { rewrite occurs_append. unfold occurs at 2. simpl.
    intros [H|[H|[H|[]]]]; try discriminate H.
    revert H. apply Hprefix. simpl; tauto. }
  destruct (split_app_head comma_c (prefix ++ list_marker) (inner ++ rbrack) Hpm)
    as (hd & tl & Htail & Hsp).
  assert (Htokeq : tok = (prefix ++ list_marker) ++ inner ++ rbrack)
    by (unfold tok; now rewrite append_assoc_string).
  rewrite <- Htokeq in Hsp.
  destruct (split_app_last comma_c inner rbrack
              ltac:(unfold occurs; simpl; intros [H|[]]; discriminate H))
    as (init & lst & Hin & Hinb).
  rewrite Hinb in Htail.
  assert (Hjoin : Py.join comma (((prefix ++ list_marker) ++ hd)%string :: tl)
                  = tok).
  { rewrite <- Hsp. unfold comma. apply join_split. }
  assert (Hit : forall t, In t (init ++ [lst])%list -> ~ occurs rbrack_c t).
  { intros t Ht Ho. rewrite <- Hin in Ht.
    apply (Hinn rbrack_c ltac:(simpl; tauto)).
    eapply split_token_occurs; eauto. }
  assert (Hclose : closes ((prefix ++ list_marker) ++ hd) tl).
  { destruct init as [|i1 imid]; simpl in Htail; injection Htail as <- <-.
    - now left.
    - right. split.
      + apply contains_chr_false. rewrite !occurs_append.
        intros [[H|H]|H].
        * revert H. apply Hprefix. simpl; tauto.
        * unfold occurs in H. simpl in H.
          destruct H as [H|[H|[]]]; discriminate H.
        * apply (Hit i1); simpl; auto.
      + exists imid, (lst ++ rbrack). split; [reflexivity|]. split.
        * intros p Hp.
          destruct (Py.endswith p rbrack) eqn:E; [|reflexivity].
          apply endswith_chr_occurs in E. exfalso.
          apply (Hit p); [|exact E]. simpl. right.
          apply in_or_app. now left.
        * apply endswith_append. }
  rewrite Hsp. rewrite length_app. cbn [List.length Nat.add app].
  rewrite (for_parts_list_spliced _ _ _ prefix inner).
  - rewrite split_with_quotes_inside by exact Hilen.
    rewrite Hinner. cbn [bind].
    rewrite for_parts_keep_rest;
      [|apply Hkeep; exact Hrest|lia].
    unfold comma. rewrite join_split. now rewrite <- app_assoc.
  - rewrite append_assoc_string. unfold Py.find.
    rewrite find_marker_append by exact Hpl. lia.
  - unfold is_list.
    replace (_find_quote_char_in_part ((prefix ++ list_marker) ++ hd))
      with (@None string).
    + rewrite append_assoc_string. unfold Py.find at 1.
      rewrite find_marker_append by exact Hpl.
      apply contains_chr_true in Hrb. unfold Py.contains, rbrack in *.
      rewrite Hrb. rewrite !andb_true_r. apply Z.geb_le.
      unfold Py.len. lia.
    + symmetry. apply find_quote_char_one_kind; intros Ho;
        (eapply (split_token_occurs comma_c _ tok) in Ho;
         [|rewrite Hsp; left; reflexivity]);
        apply Htokocc in Ho as [Ho|[Ho|[Ho|[Ho|Ho]]]];
        try discriminate Ho;
        revert Ho; (apply Hprefix || apply Hinn); simpl; tauto.
  - exact Hclose.
  - exact Hjoin.
Qed.

(** ** A section in single quotes among plain tokens *)


(** ** An unclosed list after a closing bracket *)

(** An input that ends with [prefix=[tail], after tokens that hold no
    comma: where one of those tokens holds a closing bracket, [prefix] and
    [tail] hold none, and the input holds no quote, backslash or line break
    and no opening bracket before the one shown, the splitter raises
    [ValueError] with the input. *)
Lemma unclosed_list_after_closing_bracket (pre : list string)
    (prefix tail : string) :
  let value := Py.join comma (pre ++ [prefix ++ list_marker ++ tail]) in
  (forall t, In t (pre ++ [prefix]) ->
     forall c, In c [comma_c; dquote_c; squote_c; bslash_c; lbrack_c;
                     nl_c; cr_c] -> ~ occurs c t) ->
  (exists t, In t pre /\ occurs rbrack_c t) ->
  ~ occurs rbrack_c prefix ->
  (forall c, In c [dquote_c; squote_c; bslash_c; rbrack_c; nl_c; cr_c] ->
     ~ occurs c tail) ->
  Py.len value <= Csv.field_limit ->
  split_on_commas value = Raise (ValueError value).
Proof.
  intros value Htok [tb [Htb Hob]] Hpr Htail Hlen.
  set (tok := prefix ++ list_marker ++ tail) in *.
  assert (Hpre : forall t c, In t pre ->
            In c [comma_c; dquote_c; squote_c; bslash_c; lbrack_c;
                  nl_c; cr_c] -> ~ occurs c t)
    by (intros t c Ht; apply Htok, in_or_app; now left).
  assert (Hprefix : forall c,
            In c [comma_c; dquote_c; squote_c; bslash_c; lbrack_c;
                  nl_c; cr_c] -> ~ occurs c prefix)
    by (apply Htok, in_or_app; right; now left).
  assert (Htokocc : forall c, occurs c tok ->
            occurs c prefix \/ c = "="%char \/ c = lbrack_c \/ occurs c tail).
  { intros c. unfold tok. rewrite !occurs_append.
    intros [H|[H|H]]; auto.
    unfold occurs in H. simpl in H.
    destruct H as [H|[H|[]]]; subst; auto. }
  assert (Hfree : forall c, In c [dquote_c; squote_c; bslash_c; nl_c; cr_c] ->
            ~ occurs c value).
  { intros c Hc Ho.
    assert (Hc7 : In c [comma_c; dquote_c; squote_c; bslash_c; lbrack_c;
                        nl_c; cr_c]) by (simpl in *; tauto).
    assert (Hc6 : In c [dquote_c; squote_c; bslash_c; rbrack_c; nl_c; cr_c])
      by (simpl in *; tauto).
    assert (Hcs : c <> "="%char /\ c <> lbrack_c /\ c <> comma_c).
    { simpl in Hc. unfold lbrack_c, comma_c.
      repeat (destruct Hc as [<-|Hc]; [repeat split; discriminate|]).
      destruct Hc. }
    destruct Hcs as (H1 & H2 & H3).
    unfold value in Ho. apply occurs_join in Ho as [[t [Ht Ho]]|[Ho _]].
    - apply in_app_or in Ht as [Ht|[<-|[]]].
      + now apply (Hpre t c).
      + apply Htokocc in Ho as [Ho|[Ho|[Ho|Ho]]]; try contradiction.
        * now apply (Hprefix c).
        * now apply (Htail c).
    - apply occurs_chr in Ho. contradiction. }
  assert (Hrb : occurs rbrack_c value).
  { unfold value. apply occurs_join. left. exists tb. split; [|exact Hob].
    apply in_or_app. now left. }
  assert (Hvne : value <> EmptyString)
    by (intros E; rewrite E in Hrb; exact Hrb).
  rewrite split_on_commas_quoting by auto.
  pose proof (rough_parts_plain_split value Hvne
                (Hfree dquote_c ltac:(simpl; tauto))
                (Hfree bslash_c ltac:(simpl; tauto))
                (Hfree nl_c ltac:(simpl; tauto))
                (Hfree cr_c ltac:(simpl; tauto))
                Hlen) as Hrough.
  assert (Hsplit : Py.split comma_c value
                   = (pre ++ Py.split comma_c tok ++ [])%list).
  { unfold value, comma. apply split_join_around.
    - intros u Hu. apply (Hpre u comma_c Hu). simpl; tauto.
    - intros u []. }
  rewrite app_nil_r in Hsplit. rewrite Hsplit in Hrough.
  rewrite (split_with_quotes_unfold _ _ Hrough).
  rewrite length_app.
  rewrite for_parts_keep_all.
  2:{ intros p Hp. split.
      - apply find_quote_char_one_kind; apply (Hpre p _ Hp); simpl; tauto.
      - apply find_marker_absent. apply (Hpre p _ Hp). simpl; tauto. }
  cbn [app].
  assert (Hpl : ~ occurs lbrack_c prefix) by (apply Hprefix; simpl; tauto).
  assert (Hpm : ~ occurs comma_c (prefix ++ list_marker)).
  { rewrite occurs_append. unfold occurs at 2. simpl.
    intros [H|[H|[H|[]]]]; try discriminate H.
    revert H. apply Hprefix. simpl; tauto. }
  destruct (split_app_head comma_c (prefix ++ list_marker) tail Hpm)
    as (hd & tl & Htl & Hsp).
  assert (Htokeq : tok = (prefix ++ list_marker) ++ tail)
    by (unfold tok; now rewrite append_assoc_string).
  rewrite <- Htokeq in Hsp. rewrite Hsp. cbn [List.length].
  assert (Hin : forall t c, In t (hd :: tl) -> occurs c t -> occurs c tail).
  { intros t c Ht. rewrite <- Htl in Ht.
    now apply (split_token_occurs comma_c). }
  apply for_parts_unclosed_list.
  - unfold is_list.
    replace (_find_quote_char_in_part ((prefix ++ list_marker) ++ hd))
      with (@None string).
    + rewrite append_assoc_string. unfold Py.find at 1.
      rewrite find_marker_append by exact Hpl.
      apply contains_chr_true in Hrb. unfold Py.contains, rbrack in *.
      rewrite Hrb. rewrite !andb_true_r. apply Z.geb_le.
      unfold Py.len. lia.
    + symmetry. apply find_quote_char_one_kind; rewrite !occurs_append;
        (intros [[Ho|Ho]|Ho];
         [revert Ho; apply Hprefix; simpl; tauto
         |unfold occurs in Ho; simpl in Ho;
          destruct Ho as [Ho|[Ho|[]]]; discriminate Ho
         |apply (Hin hd) in Ho; [|now left];
          revert Ho; apply Htail; simpl; tauto]).
  - apply contains_chr_false. rewrite !occurs_append.
    intros [[Ho|Ho]|Ho].
    + contradiction.
    + unfold occurs in Ho. simpl in Ho.
      destruct Ho as [Ho|[Ho|[]]]; discriminate Ho.
    + apply (Hin hd) in Ho; [|now left].
      revert Ho. apply Htail. simpl; tauto.
  - intros p Hp. destruct (Py.endswith p rbrack) eqn:E; [|reflexivity].
    apply endswith_chr_occurs in E. exfalso.
    apply (Hin p) in E; [|now right].
    revert E. apply Htail. simpl; tauto.
Qed.

(** ** Bracketed lists *)

(** C2 (amended): a part is taken as a list exactly when it holds the
    list marker, the input holds a closing bracket, and the quote character
    of the part, if it has one, comes after the marker.  When the loop over
    the rough parts comes to a part [prefix=[...] that is taken as a list,
    the part is joined with the parts after it up to the first that ends
    with a closing bracket, or is taken alone when it holds a closing
    bracket itself; when the chunk so obtained reads [prefix=[inner]] with
    [inner] not empty, the recursive call is made on [inner]: an error it
    raises is raised by the loop, and otherwise the single token
    [prefix=item1,item2,...], its items joined with commas, is appended to
    the output and the loop goes on after the last part joined.  With plain
    parts before and after, the output of the splitter is those parts with
    the token in the place of the parts joined.  On the input: a token
    [prefix=[inner]] among tokens that hold no comma, where [inner] is not
    empty, the input holds no quote, backslash or line break, no bracket
    but the two shown and opening ones in [inner], and is no longer than
    the field limit of the [csv] reader, is returned as [prefix=inner], and
    the other tokens as they are. *)
Theorem bracketed_list_spliced :
  (forall (recur : string -> outcome (list string)) value k
          prefix inner part eaten rest new_parts,
     Py.find list_marker part = Py.len prefix ->
     is_list value part (_find_quote_char_in_part part) = true ->
     closes part eaten ->
     Py.join comma (part :: eaten) = prefix ++ list_marker ++ inner ++ rbrack ->
     inner <> EmptyString ->
     for_parts recur value (S k) (part :: eaten ++ rest) new_parts =
     (list_items <- recur inner ;;
      for_parts recur value k rest
        (new_parts ++ [prefix ++ "=" ++ Py.join comma list_items]))) /\
  (forall value pre part eaten rest prefix inner,
     rough_parts value = Ok (pre ++ part :: eaten ++ rest)%list ->
     (forall p, In p pre ->
        _find_quote_char_in_part p = None /\ Py.find list_marker p = -1) ->
     (forall p, In p rest ->
        _find_quote_char_in_part p = None /\ Py.find list_marker p = -1) ->
     Py.find list_marker part = Py.len prefix ->
     is_list value part (_find_quote_char_in_part part) = true ->
     closes part eaten ->
     Py.join comma (part :: eaten) = prefix ++ list_marker ++ inner ++ rbrack ->
     inner <> EmptyString ->
     split_on_commas value =
     (list_items <- _split_with_quotes inner ;;
      Ok (pre ++ [(prefix ++ "=" ++ Py.join comma list_items)%string]
              ++ rest)%list)) /\
  (forall pre rest prefix inner,
     (forall t, In t (pre ++ prefix :: rest) ->
        forall c, In c [comma_c; dquote_c; squote_c; bslash_c; lbrack_c;
                        rbrack_c; nl_c; cr_c] -> ~ occurs c t) ->
     (forall c, In c [dquote_c; squote_c; bslash_c; rbrack_c; nl_c; cr_c] ->
        ~ occurs c inner) ->
     inner <> EmptyString ->
     Py.len (Py.join comma
               (pre ++ (prefix ++ list_marker ++ inner ++ rbrack)%string
                    :: rest))
       <= Csv.field_limit ->
     split_on_commas
       (Py.join comma
          (pre ++ (prefix ++ list_marker ++ inner ++ rbrack)%string :: rest))
     = Ok (pre ++ [(prefix ++ "=" ++ inner)%string] ++ rest)%list) /\
  (forall value part,
     is_list value part (_find_quote_char_in_part part) = true <->
     0 <= Py.find list_marker part /\ occurs rbrack_c value /\
     (forall q, _find_quote_char_in_part part = Some q ->
                Py.find list_marker part < Py.find q part)) /\
  (forall value part q,
     _find_quote_char_in_part part = Some q ->
     Py.find q part < Py.find list_marker part ->
     is_list value part (_find_quote_char_in_part part) = false) /\
  split_on_commas "key=[1,2,3]" = Ok ["key=1,2,3"] /\
  split_on_commas "a,k=[1,2,3],b=[x],c" = Ok ["a"; "k=1,2,3"; "b=x"; "c"] /\
  split_on_commas "a,k=[x,'y,z',w],b" = Ok ["a"; "k=x,y,z,w"; "b"] /\
  split_on_commas "k=['a',b]" = Ok ["k=a,b"] /\
  split_on_commas "k=['a,b]" = Raise (ValueError "'a,b") /\
  split_on_commas "'k'=[1,2]" = Ok ["k=[1"; "2]"].
Proof.
  split; [|split; [|split; [|split; [|split]]]].
  - intros recur value k prefix inner part eaten rest new_parts
           Hfind Hlist Hclose Hjoin _.
    now apply for_parts_list_spliced.
  - intros value pre part eaten rest prefix inner
           Hrough Hpre Hrest Hfind Hlist Hclose Hjoin _.
    rewrite split_on_commas_general by (eapply is_list_closing; eauto).
    rewrite (split_with_quotes_unfold _ _ Hrough).
    rewrite length_app. cbn [List.length].
    rewrite for_parts_keep_all by exact Hpre.
    rewrite (for_parts_list_spliced _ _ _ prefix inner) by assumption.
    rewrite split_with_quotes_inside.
    + destruct (_split_with_quotes inner) as [items| |]; cbn [bind];
        try reflexivity.
      rewrite for_parts_keep_rest; [|exact Hrest|rewrite length_app; lia].
      now rewrite <- app_assoc.
    + apply rough_parts_length in Hrough.
      rewrite weight_append in Hrough.
      change (part :: eaten ++ rest)%list with ((part :: eaten) ++ rest)%list
        in Hrough.
      rewrite weight_append in Hrough.
      pose proof (length_join_weight (part :: eaten)) as Hw.
      rewrite Hjoin, !length_append in Hw.
      cbn [String.length list_marker rbrack chr] in Hw. simpl weight in *.
      lia.
  - intros pre rest prefix inner. apply plain_list_among_tokens.
  - intros value part. unfold is_list.
    rewrite !andb_true_iff, Z.geb_le.
    change (negb (Py.find rbrack value =? -1))
      with (Py.contains (chr rbrack_c) value).
    rewrite contains_chr_true.
    destruct (_find_quote_char_in_part part) as [q|].
    + rewrite Z.gtb_lt. split.
      * intros [[H1 H2] H3]. split; [exact H1|]. split; [exact H2|].
        intros q' E. injection E as <-. exact H3.
      * intros (H1 & H2 & H3). split; [split; assumption|].
        exact (H3 q eq_refl).
    + split.
      * intros [[H1 H2] _]. split; [exact H1|]. split; [exact H2|].
        discriminate.
      * intros (H1 & H2 & _). split; [split; assumption|reflexivity].
  - intros value part q Hq Hlt. rewrite Hq. unfold is_list.
    replace (Py.find q part >? Py.find list_marker part) with false
      by (symmetry; rewrite Z.gtb_ltb; apply Z.ltb_ge; lia).
    now rewrite andb_false_r.
  - repeat split; vm_compute; reflexivity.
Qed.

Lemma bracketed_list_spliced_witness :
  for_parts (_split_with_quotes_fuel 15) "a,key=[1,2,3],b" 3
            ("key=[1" :: ["2"; "3]"] ++ ["b"]) ["a"]
  = Ok ["a"; "key=1,2,3"; "b"] /\
  split_on_commas "a,key=[1,2,3],b" = Ok ["a"; "key=1,2,3"; "b"] /\
  split_on_commas "a,k=[x=1,y,z],b,c" = Ok ["a"; "k=x=1,y,z"; "b"; "c"] /\
  is_list "'k'=[1,2]" "'k'=[1" (_find_quote_char_in_part "'k'=[1") = false.
Proof.
  assert (Hclose : closes "key=[1" ["2"; "3]"]).
  { right. split; [vm_compute; reflexivity|].
    exists ["2"], "3]". split; [reflexivity|]. split.
    - intros p [<-|[]]. vm_compute; reflexivity.
    - vm_compute; reflexivity. }
  split; [|split; [|split]].
  - rewrite (proj1 bracketed_list_spliced (_split_with_quotes_fuel 15)
               "a,key=[1,2,3],b" 2%nat "key" "1,2,3" "key=[1" ["2"; "3]"]
               ["b"] ["a"]).
    + vm_compute; reflexivity.
    + vm_compute; reflexivity.
    + vm_compute; reflexivity.
    + exact Hclose.
    + vm_compute; reflexivity.
    + discriminate.
  - rewrite (proj1 (proj2 bracketed_list_spliced)
               "a,key=[1,2,3],b" ["a"] "key=[1" ["2"; "3]"] ["b"]
               "key" "1,2,3").
    + vm_compute; reflexivity.
    + vm_compute; reflexivity.
    + intros p [<-|[]]. split; vm_compute; reflexivity.
    + intros p [<-|[]]. split; vm_compute; reflexivity.
    + vm_compute; reflexivity.
    + vm_compute; reflexivity.
    + exact Hclose.
    + vm_compute; reflexivity.
    + discriminate.
  - apply (proj1 (proj2 (proj2 bracketed_list_spliced))
             ["a"] ["b"; "c"] "k" "x=1,y,z").
    + intros t [<-|[<-|[<-|[<-|[]]]]] c Hc; simpl in Hc;
        repeat (destruct Hc as [<-|Hc];
                [unfold occurs; simpl; intuition discriminate|]);
        destruct Hc.
    + intros c Hc; simpl in Hc;
        repeat (destruct Hc as [<-|Hc];
                [unfold occurs; simpl; intuition discriminate|]);
        destruct Hc.
    + discriminate.
    + vm_compute. discriminate.
  - apply (proj1 (proj2 (proj2 (proj2 (proj2 bracketed_list_spliced))))
             "'k'=[1,2]" "'k'=[1" squote).
    + vm_compute; reflexivity.
    + vm_compute; reflexivity.
Defined.

(** C2 as stated fails: a part that holds the list marker, followed by a
    part that ends with a closing bracket, is not taken as a list when a
    quote character comes before the marker; it is not reached by the loop
    when a part before it opens a quote; and nothing is put in its place
    when the recursive call on the inside of the list raises. *)
Lemma quote_before_marker_is_no_list :
  (rough_parts "'k'=[1,2]" = Ok ["'k'=[1"; "2]"] /\
   Py.find list_marker "'k'=[1" = 3 /\
   Py.endswith "2]" rbrack = true /\
   split_on_commas "'k'=[1,2]" = Ok ["k=[1"; "2]"]) /\
  (rough_parts "'a,k=[1,2],b'" = Ok ["'a"; "k=[1"; "2]"; "b'"] /\
   is_list "'a,k=[1,2],b'" "k=[1" (_find_quote_char_in_part "k=[1") = true /\
   split_on_commas "'a,k=[1,2],b'" = Ok ["a,k=[1,2],b"]) /\
  (rough_parts "k=['a,b]" = Ok ["k=['a"; "b]"] /\
   is_list "k=['a,b]" "k=['a" (_find_quote_char_in_part "k=['a") = true /\
   split_on_commas "k=['a,b]" = Raise (ValueError "'a,b")).
Proof. repeat split; vm_compute; reflexivity. Qed.

(** The empty list: the recursive call is made on the empty string, on
    which the [csv] reader yields no row to take. *)
Lemma empty_list_raises_index_error :
  _split_with_quotes EmptyString = Raise IndexError /\
  split_on_commas "k=[]" = Raise IndexError.
Proof. split; vm_compute; reflexivity. Qed.

(** ** Unclosed lists *)

(** C3 (amended): a list opened with the list marker and never closed
    raises when the input holds a closing bracket somewhere, and is kept
    when it holds none.  When the loop comes to a part taken as a list that
    holds no closing bracket and no later part ends with one, it raises
    [ValueError] with the value of the call; with plain parts before that
    part, the splitter raises [ValueError] with the input.  On the input:
    an input that ends with [prefix=[tail], after tokens that hold no comma
    and one of which holds a closing bracket, where [prefix] and [tail]
    hold no closing bracket, the input holds no quote, backslash or line
    break and no opening bracket before the one shown, and is no longer
    than the field limit of the [csv] reader, raises [ValueError] with the
    input.  When the input holds no closing bracket at all, no part is
    taken as a list; if it holds no quote, backslash, line feed or carriage
    return either and is no longer than the field limit, the plain comma
    split is returned, as on [key=[1,2]. *)
Theorem unclosed_list_raises_when_bracket_present :
  (forall (recur : string -> outcome (list string)) value k
          part rest new_parts,
     is_list value part (_find_quote_char_in_part part) = true ->
     Py.contains rbrack part = false ->
     (forall p, In p rest -> Py.endswith p rbrack = false) ->
     for_parts recur value (S k) (part :: rest) new_parts
       = Raise (ValueError value)) /\
  (forall value pre part rest,
     rough_parts value = Ok (pre ++ part :: rest)%list ->
     (forall p, In p pre ->
        _find_quote_char_in_part p = None /\ Py.find list_marker p = -1) ->
     is_list value part (_find_quote_char_in_part part) = true ->
     Py.contains rbrack part = false ->
     (forall p, In p rest -> Py.endswith p rbrack = false) ->
     split_on_commas value = Raise (ValueError value)) /\
  (forall pre prefix tail,
     (forall t, In t (pre ++ [prefix]) ->
        forall c, In c [comma_c; dquote_c; squote_c; bslash_c; lbrack_c;
                        nl_c; cr_c] -> ~ occurs c t) ->
     (exists t, In t pre /\ occurs rbrack_c t) ->
     ~ occurs rbrack_c prefix ->
     (forall c, In c [dquote_c; squote_c; bslash_c; rbrack_c; nl_c; cr_c] ->
        ~ occurs c tail) ->
     Py.len (Py.join comma (pre ++ [(prefix ++ list_marker ++ tail)%string]))
       <= Csv.field_limit ->
     split_on_commas
       (Py.join comma (pre ++ [(prefix ++ list_marker ++ tail)%string]))
     = Raise (ValueError
                (Py.join comma
                   (pre ++ [(prefix ++ list_marker ++ tail)%string])))) /\
  (forall value,
     ~ occurs rbrack_c value ->
     (forall part q, is_list value part q = false) /\
     (~ occurs dquote_c value -> ~ occurs squote_c value ->
      ~ occurs bslash_c value -> ~ occurs nl_c value -> ~ occurs cr_c value ->
      Py.len value <= Csv.field_limit ->
      split_on_commas value = Ok (Py.split comma_c value))) /\
  split_on_commas "a],key=[1,2" = Raise (ValueError "a],key=[1,2") /\
  split_on_commas "key=[1,2" = Ok ["key=[1"; "2"].
Proof.
  split; [|split; [|split; [|split; [|split; vm_compute; reflexivity]]]].
  - intros recur value k part rest new_parts.
    apply for_parts_unclosed_list.
  - intros value pre part rest Hrough Hpre Hlist Hpart Hrest.
    rewrite split_on_commas_general by (eapply is_list_closing; eauto).
    rewrite (split_with_quotes_unfold _ _ Hrough).
    rewrite length_app. cbn [List.length].
    rewrite for_parts_keep_all by exact Hpre.
    now apply for_parts_unclosed_list.
  - intros pre prefix tail. apply unclosed_list_after_closing_bracket.
  - intros value Hrb. split.
    + intros part q. now apply is_list_without_closing.
    + intros Hd Hs Hb Hn Hr Hlen.
      destruct (in_dec ascii_dec lbrack_c (list_ascii_of_string value))
        as [Hl|Hl].
      * rewrite split_on_commas_quoting by auto.
        apply split_with_quotes_no_list; auto.
        intros ->. exact Hl.
      * apply split_on_commas_fast. repeat split; assumption.
Qed.

Lemma unclosed_list_raises_when_bracket_present_witness :
  for_parts (_split_with_quotes_fuel 12) "a],key=[1,2" 2
            ["key=[1"; "2"] ["a]"]
  = Raise (ValueError "a],key=[1,2") /\
  split_on_commas "a],key=[1,2" = Raise (ValueError "a],key=[1,2") /\
  split_on_commas "x,y]z,k=[1,2,3" = Raise (ValueError "x,y]z,k=[1,2,3") /\
  is_list "key=[1,2" "key=[1" None = false /\
  split_on_commas "x=[1,y=2" = Ok ["x=[1"; "y=2"].
Proof.
  split; [|split; [|split; [|split]]].
  - apply (proj1 unclosed_list_raises_when_bracket_present).
    + vm_compute; reflexivity.
    + vm_compute; reflexivity.
    + intros p [<-|[]]. vm_compute; reflexivity.
  - apply (proj1 (proj2 unclosed_list_raises_when_bracket_present)
             "a],key=[1,2" ["a]"] "key=[1" ["2"]).
    + vm_compute; reflexivity.
    + intros p [<-|[]]. split; vm_compute; reflexivity.
    + vm_compute; reflexivity.
    + vm_compute; reflexivity.
    + intros p [<-|[]]. vm_compute; reflexivity.
  - apply (proj1 (proj2 (proj2 unclosed_list_raises_when_bracket_present))
             ["x"; "y]z"] "k" "1,2,3").
    + intros t [<-|[<-|[<-|[]]]] c Hc; simpl in Hc;
        repeat (destruct Hc as [<-|Hc];
                [unfold occurs; simpl; intuition discriminate|]);
        destruct Hc.
    + exists "y]z". split; [right; now left|]. unfold occurs; simpl; auto.
    + unfold occurs; simpl; intuition discriminate.
    + intros c Hc; simpl in Hc;
        repeat (destruct Hc as [<-|Hc];
                [unfold occurs; simpl; intuition discriminate|]);
        destruct Hc.
    + vm_compute. discriminate.
  - apply (proj1 (proj1 (proj2 (proj2 (proj2
             unclosed_list_raises_when_bracket_present)))
                    "key=[1,2"
                    ltac:(unfold occurs; simpl; intuition discriminate))).
  - apply (proj2 (proj1 (proj2 (proj2 (proj2
             unclosed_list_raises_when_bracket_present)))
                    "x=[1,y=2"
                    ltac:(unfold occurs; simpl; intuition discriminate))).
    + unfold occurs; simpl; intuition discriminate.
    + unfold occurs; simpl; intuition discriminate.
    + unfold occurs; simpl; intuition discriminate.
    + unfold occurs; simpl; intuition discriminate.
    + unfold occurs; simpl; intuition discriminate.
    + vm_compute. discriminate.
Defined.

(** C3 as stated fails: with no closing bracket anywhere in the input the
    unclosed list raises nothing. *)
Lemma unclosed_list_without_bracket_is_kept :
  0 <= Py.find list_marker "key=[1,2" /\
  Py.contains rbrack "key=[1,2" = false /\
  split_on_commas "key=[1,2" = Ok ["key=[1"; "2"].
Proof. repeat split; vm_compute; try reflexivity; discriminate. Qed.

(** ** Quoted sections *)




(** ** What a failure carries *)

(** C9 (amended): on an input that holds a quote or a bracket, a failure
    of the rough split is raised as [ValueError] with the text
    [Bad csv value: ] followed by the input.  An error of the loop over the
    rough parts is [ValueError] with the value of the call, or is the error
    that the recursive call returned on a string shorter than the parts
    joined; so, when the rough split succeeds, whatever the splitter raises
    is [ValueError] with exactly the input, or is what the splitter raises
    on a string shorter than the input, and it is [ValueError] with exactly
    the input when no part is taken as a list.  The parts running out while
    a list or a quoted section is collected raises [ValueError] with the
    value of the call, the input at the top. *)
Theorem failure_carries_input :
  (forall value,
     occurs dquote_c value \/ occurs squote_c value \/
     occurs lbrack_c value \/ occurs rbrack_c value ->
     Csv.reader value = Raise csv_Error ->
     split_on_commas value = Raise (ValueError ("Bad csv value: " ++ value))) /\
  (forall (recur : string -> outcome (list string)) value k
          iter_parts new_parts e,
     for_parts recur value k iter_parts new_parts = Raise e ->
     e = ValueError value \/
     exists inner,
       (String.length inner + 2 <= weight iter_parts)%nat /\
       recur inner = Raise e) /\
  (forall value parts e,
     occurs dquote_c value \/ occurs squote_c value \/
     occurs lbrack_c value \/ occurs rbrack_c value ->
     rough_parts value = Ok parts ->
     split_on_commas value = Raise e ->
     e = ValueError value \/
     exists inner,
       (String.length inner < String.length value)%nat /\
       _split_with_quotes inner = Raise e) /\
  (forall value parts e,
     occurs dquote_c value \/ occurs squote_c value \/
     occurs lbrack_c value \/ occurs rbrack_c value ->
     rough_parts value = Ok parts ->
     (forall p, In p parts ->
        is_list value p (_find_quote_char_in_part p) = false) ->
     split_on_commas value = Raise e ->
     e = ValueError value) /\
  (forall (recur : string -> outcome (list string)) value k
          part rest new_parts,
     is_list value part (_find_quote_char_in_part part) = true ->
     Py.contains rbrack part = false ->
     (forall p, In p rest -> Py.endswith p rbrack = false) ->
     for_parts recur value (S k) (part :: rest) new_parts
       = Raise (ValueError value)) /\
  (forall (recur : string -> outcome (list string)) value k
          part q rest new_parts,
     _find_quote_char_in_part part = Some q ->
     is_list value part (Some q) = false ->
     Py.count q part <> 2 ->
     (forall p, In p rest -> Py.endswith p q = false) ->
     for_parts recur value (S k) (part :: rest) new_parts
       = Raise (ValueError value)) /\
  split_on_commas "k=[1,2],'a" = Raise (ValueError "k=[1,2],'a") /\
  split_on_commas "a],key=[1,2" = Raise (ValueError "a],key=[1,2") /\
  split_on_commas "a,'b,c" = Raise (ValueError "a,'b,c").
Proof.
  split; [|split; [|split; [|split; [|split; [|split]]]]].
  - intros value Hq Hcsv. rewrite split_on_commas_quoting by exact Hq.
    unfold _split_with_quotes. simpl. unfold rough_parts. now rewrite Hcsv.
  - intros recur value k iter_parts new_parts e.
    apply for_parts_raises_or_inner.
  - intros value parts e Hq Hrough.
    rewrite split_on_commas_quoting by exact Hq.
    rewrite (split_with_quotes_unfold _ _ Hrough). intros H.
    apply for_parts_raises_or_inner in H as [H | [inner [Hi H]]];
      [now left|right].
    apply rough_parts_length in Hrough.
    assert (Hlt : (String.length inner < String.length value)%nat) by lia.
    exists inner. split; [exact Hlt|].
    now rewrite <- (split_with_quotes_inside _ _ Hlt).
  - intros value parts e Hq Hrough Hno.
    rewrite split_on_commas_quoting by exact Hq.
    rewrite (split_with_quotes_unfold _ _ Hrough).
    now apply for_parts_raises.
  - intros recur value k part rest new_parts.
    apply for_parts_unclosed_list.
  - intros recur value k part q rest new_parts.
    apply for_parts_unclosed_quote.
  - repeat split; vm_compute; reflexivity.
Qed.

Lemma failure_carries_input_witness :
  split_on_commas ("[" ++ chr cr_c ++ "b")
    = Raise (ValueError ("Bad csv value: " ++ "[" ++ chr cr_c ++ "b")) /\
  (ValueError "p=[1,2,q]r,s" = ValueError "x=[p=[1,2,q]r,s]" \/
   exists inner,
     (String.length inner + 2
      <= weight ["x=[p=[1"; "2"; "q]r"; "s]"])%nat /\
     _split_with_quotes_fuel 16 inner = Raise (ValueError "p=[1,2,q]r,s")) /\
  (ValueError "k=[1,2],'a" = ValueError "k=[1,2],'a" \/
   exists inner,
     (String.length inner < String.length "k=[1,2],'a")%nat /\
     _split_with_quotes inner = Raise (ValueError "k=[1,2],'a")) /\
  (ValueError "p=[1,2,q]r,s" = ValueError "x=[p=[1,2,q]r,s]" \/
   exists inner,
     (String.length inner < String.length "x=[p=[1,2,q]r,s]")%nat /\
     _split_with_quotes inner = Raise (ValueError "p=[1,2,q]r,s")) /\
  ValueError "a,'b,c" = ValueError "a,'b,c" /\
  for_parts (_split_with_quotes_fuel 12) "a],key=[1,2" 2
            ["key=[1"; "2"] ["a]"]
  = Raise (ValueError "a],key=[1,2") /\
  for_parts (_split_with_quotes_fuel 7) "a,'b,c" 2 ["'b"; "c"] ["a"]
  = Raise (ValueError "a,'b,c").
Proof.
  split; [|split; [|split; [|split; [|split; [|split]]]]].
  - apply (proj1 failure_carries_input).
    + right; right; left. unfold occurs; simpl; auto.
    + vm_compute; reflexivity.
  - apply (proj1 (proj2 failure_carries_input)
             (_split_with_quotes_fuel 16) "x=[p=[1,2,q]r,s]" 4%nat
             ["x=[p=[1"; "2"; "q]r"; "s]"] []).
    vm_compute; reflexivity.
  - apply (proj1 (proj2 (proj2 failure_carries_input))
             "k=[1,2],'a" ["k=[1"; "2]"; "'a"]).
    + right; left. unfold occurs; simpl; auto 20.
    + vm_compute; reflexivity.
    + vm_compute; reflexivity.
  - apply (proj1 (proj2 (proj2 failure_carries_input))
             "x=[p=[1,2,q]r,s]" ["x=[p=[1"; "2"; "q]r"; "s]"]).
    + right; right; left. unfold occurs; simpl; auto 20.
    + vm_compute; reflexivity.
    + vm_compute; reflexivity.
  - apply (proj1 (proj2 (proj2 (proj2 failure_carries_input)))
             "a,'b,c" ["a"; "'b"; "c"]).
    + right; left. unfold occurs; simpl; auto.
    + vm_compute; reflexivity.
    + intros p [<-|[<-|[<-|[]]]]; vm_compute; reflexivity.
    + vm_compute; reflexivity.
  - apply (proj1 (proj2 (proj2 (proj2 (proj2 failure_carries_input))))).
    + vm_compute; reflexivity.
    + vm_compute; reflexivity.
    + intros p [<-|[]]. vm_compute; reflexivity.
  - apply (proj1 (proj2 (proj2 (proj2 (proj2 (proj2 failure_carries_input)))))
             _ _ _ "'b" squote).
    + vm_compute; reflexivity.
    + vm_compute; reflexivity.
    + vm_compute; discriminate.
    + intros p [<-|[]]. vm_compute; reflexivity.
Defined.

(** On the path for inputs with a backslash and no quote or bracket, the
    error of the [csv] reader leaves [split_on_commas] as it is. *)
Lemma escape_path_raises_csv_error :
  split_on_commas ("a" ++ chr cr_c ++ "b" ++ bslash) = Raise csv_Error.
Proof. vm_compute; reflexivity. Qed.

(** C9 as stated fails: a failure inside a bracketed list carries the inside
    of the list, not the input. *)
Lemma failure_in_list_carries_inside :
  split_on_commas "x=[p=[1,2,q]r,s]" = Raise (ValueError "p=[1,2,q]r,s") /\
  "p=[1,2,q]r,s" <> "x=[p=[1,2,q]r,s]".
Proof. split; [vm_compute; reflexivity|discriminate]. Qed.
